(** * cruddy: CRUD operations over one hash-keyed DynamoDB table

    A shallow embedding of [src/cruddy/__init__.py] (Python 2) and the
    properties its specification states about it.

    Python values are an inductive type, dictionaries are finite maps
    ([gmap string value]), and every method is a function in a state and
    exception monad.  The state holds the handler object, the backing
    table, the trace of store requests, and counters that index the
    external oracles (uuid generator, clock, key-management service). *)

From stdpp Require Import gmap strings list fin_maps pretty.
From Stdlib Require Import ZArith Ascii Floats.SpecFloat.

Local Open Scope string_scope.

(** ** Python values *)

(** A finite [decimal.Decimal]: the number [dec_coeff * 10 ^ dec_exp]. *)
Record decimal := Dec { dec_coeff : Z; dec_exp : Z }.

Inductive value :=
  | VNone
  | VBool (b : bool)
  | VInt (n : Z)
  | VFloat (x : spec_float)
  | VDecimal (d : decimal)
  | VStr (s : string)
  | VList (l : list value)
  | VSet (l : list value)
  | VDict (m : gmap string value).

(** An item of the table is a dictionary keyed by attribute name. *)
Abbreviation item := (gmap string value).

(** The result of evaluating Python code: a value, or an exception that
    propagates to the caller (identified by its class name). *)
Inductive outcome (A : Type) :=
  | Ret (a : A)
  | Raise (cls : string).
Arguments Ret {A} a.
Arguments Raise {A} cls.

Definition outcome_map {A B} (f : A → B) (o : outcome A) : outcome B :=
  match o with
  | Ret a => Ret (f a)
  | Raise e => Raise e
  end.

Definition outcome_bind {A B} (o : outcome A) (k : A → outcome B) : outcome B :=
  match o with
  | Ret a => k a
  | Raise e => Raise e
  end.

(** ** [decimal.Decimal] arithmetic used by the source *)

(** Precision of the default arithmetic context ([getcontext().prec]). *)
Definition context_prec : Z := 28.

(** [Decimal._divide(obj, Decimal(1))]: both operands are aligned to a
    common exponent and divided as integers; a quotient that needs more
    than [context_prec] digits signals DivisionImpossible, which the
    default context raises as InvalidOperation. *)
Definition decimal_divide_by_one (d : decimal) : outcome (Z * Z) :=
  let n := Z.abs (dec_coeff d) in
  let '(op1, op2) :=
    if (0 <=? dec_exp d)%Z then ((n * 10 ^ dec_exp d)%Z, 1%Z)
    else (n, (10 ^ (- dec_exp d))%Z) in
  let q := (op1 / op2)%Z in
  let r := (op1 mod op2)%Z in
  if (q <? 10 ^ context_prec)%Z then Ret (q, r) else Raise "InvalidOperation".

(** [obj % 1 == 0] *)
Definition decimal_mod_one_is_zero (d : decimal) : outcome bool :=
  outcome_map (λ qr, (snd qr =? 0)%Z) (decimal_divide_by_one d).

(** [int(obj)]: truncation towards zero. *)
Definition decimal_to_int (d : decimal) : Z :=
  if (0 <=? dec_exp d)%Z then (dec_coeff d * 10 ^ dec_exp d)%Z
  else Z.quot (dec_coeff d) (10 ^ (- dec_exp d)).

(** ** The requests that the operations send to the table resource *)

Inductive request :=
  | GetItem (key : value) (consistent_read : bool)
  | PutItem (it : item)
  | DeleteItem (key : value)
  | Scan
  | Query (attr val index_name : string).

(** ** The platform: library calls with no source in this repository *)

Class Platform := {
  (** [str(uuid.uuid4())], indexed by the number of earlier calls *)
  uuid4 : nat → string;
  (** [int(time.time() * 1000)], indexed by the number of earlier readings *)
  time_ms : nat → Z;
  (** [float(obj)] for a [Decimal] *)
  float_of_decimal : decimal → spec_float;
  (** [base64.b64encode] and [base64.b64decode] ([None]: TypeError) *)
  b64encode : string → string;
  b64decode : string → option string;
  (** KMS [encrypt(KeyId, Plaintext)['CiphertextBlob']] and
      [decrypt(CiphertextBlob)['Plaintext']]; the first argument is the
      number of earlier KMS calls, so that encryption may be randomised *)
  kms_encrypt : nat → string → string → outcome string;
  kms_decrypt : nat → string → outcome string;
  (** the wording with which the client library or the service refuses a
      request *)
  refusal_text : request → string;
}.

(** What the operations rely on from [base64]: decoding undoes encoding. *)
Class Base64Law `{Platform} : Prop :=
  b64decode_encode : ∀ s, b64decode (b64encode s) = Some s.

(** ** The response envelope *)

Inductive body :=
  | BodyItem (found : option item)       (* get_item: ['Item'] when present *)
  | BodyItems (items : list item)        (* scan, query: ['Items'] *)
  | BodyEmpty.                           (* put_item, delete_item *)

Record raw := Raw { Body : body; ResponseMetadata : nat }.

Record CRUDResponse := Response {
  resp_debug : bool;
  status : string;
  data : value;
  error_type : option string;
  error_code : option string;
  error_message : option string;
  raw_response : option raw;
  metadata : option nat;
}.

(** [CRUDResponse.__init__] *)
Definition new_CRUDResponse (debug : bool) : CRUDResponse :=
  Response debug "success" VNone None None None None None.

Definition is_successful (r : CRUDResponse) : bool := String.eqb (status r) "success".

(** [CRUDResponse.prepare] *)
Definition prepare (r : CRUDResponse) : CRUDResponse :=
  if String.eqb (status r) "success" then
    match raw_response r with
    | Some rr =>
        if resp_debug r then r
        else Response (resp_debug r) (status r) (data r) (error_type r)
               (error_code r) (error_message r) None (Some (ResponseMetadata rr))
    | None => r
    end
  else r.

(** Assignments to the attributes of a response. *)
Definition set_status (r : CRUDResponse) (s : string) : CRUDResponse :=
  Response (resp_debug r) s (data r) (error_type r) (error_code r)
    (error_message r) (raw_response r) (metadata r).

Definition set_error_type (r : CRUDResponse) (ty : option string) : CRUDResponse :=
  Response (resp_debug r) (status r) (data r) ty (error_code r)
    (error_message r) (raw_response r) (metadata r).

Definition set_error_code (r : CRUDResponse) (code : option string) : CRUDResponse :=
  Response (resp_debug r) (status r) (data r) (error_type r) code
    (error_message r) (raw_response r) (metadata r).

Definition set_error_message (r : CRUDResponse) (msg : option string) : CRUDResponse :=
  Response (resp_debug r) (status r) (data r) (error_type r) (error_code r)
    msg (raw_response r) (metadata r).

(** The three assignments by which the operations report an error of
    their own: status, error_type and error_message. *)
Definition report (r : CRUDResponse) (ty msg : string) : CRUDResponse :=
  set_error_message (set_error_type (set_status r "error") (Some ty)) (Some msg).

Definition set_data (r : CRUDResponse) (v : value) : CRUDResponse :=
  Response (resp_debug r) (status r) v (error_type r) (error_code r)
    (error_message r) (raw_response r) (metadata r).

Definition set_raw_response (r : CRUDResponse) (rr : raw) : CRUDResponse :=
  Response (resp_debug r) (status r) (data r) (error_type r) (error_code r)
    (error_message r) (Some rr) (metadata r).

(** ** The handler object, the store and the program state *)

(** The attributes of a [CRUD] instance that the operations read. *)
Record crud := Crud {
  defaults : gmap string value;
  supported_ops : list string;
  encrypted_attributes : list (string * string);
  _indexes : gmap string string;
  _debug : bool;
}.

(** [CRUD.SupportedOps] *)
Definition SupportedOps : list string :=
  ["create"; "update"; "get"; "delete"; "list"; "query"].

(** A failed store request: a botocore [ClientError] carrying the
    provider's [Error] map, or any other exception. *)
Inductive ddb_fault :=
  | ClientError (message code type_ : option string)
  | OtherError (cls message : string).

(** The state of a run.  The arguments of the operations are values:
    the dictionary passed to [create] or [update] is the caller's own, and
    the assignments that the source makes into it are kept in the item
    that is written and returned.  What the caller's dictionary holds
    after the call is not part of the state, and a caller who passes the
    very dictionary that the handler keeps as its defaults is outside
    this model. *)
Record state := State {
  self : crud;                          (* the handler object *)
  uuids : nat;                          (* uuid4() calls so far *)
  ticks : nat;                          (* clock readings so far *)
  kms_calls : nat;                      (* KMS calls so far *)
  table : gmap string item;             (* table contents by hash key *)
  faults : list (option ddb_fault);     (* fate of the coming requests *)
  requests : list request;              (* requests issued, oldest first *)
}.

Definition next_uuid (st : state) : state :=
  State (self st) (S (uuids st)) (ticks st) (kms_calls st) (table st)
    (faults st) (requests st).

Definition next_tick (st : state) : state :=
  State (self st) (uuids st) (S (ticks st)) (kms_calls st) (table st)
    (faults st) (requests st).

Definition next_kms_call (st : state) : state :=
  State (self st) (uuids st) (ticks st) (S (kms_calls st)) (table st)
    (faults st) (requests st).

(** ** The monad of the operations: state and exceptions *)

Definition M (A : Type) : Type := state → outcome A * state.

Definition ret {A} (a : A) : M A := λ st, (Ret a, st).

Definition raise {A} (cls : string) : M A := λ st, (Raise cls, st).

Definition bind {A B} (m : M A) (k : A → M B) : M B :=
  λ st, match m st with
        | (Ret a, st') => k a st'
        | (Raise e, st') => (Raise e, st')
        end.

Definition lift {A} (o : outcome A) : M A := λ st, (o, st).

Definition gets {A} (f : state → A) : M A := λ st, (Ret (f st), st).

Notation "x <~ m ;; k" := (bind m (λ x, k))
  (at level 200, m at level 99, k at level 200, right associativity).

(** ** The table resource *)

(** boto3 refuses Python floats when it serialises a request. *)
Fixpoint has_float (v : value) : bool :=
  match v with
  | VFloat _ => true
  | VList l | VSet l => existsb has_float l
  | VDict m => map_fold (λ _ x acc, has_float x || acc) false m
  | _ => false
  end.

(** boto3 writes a number as [str(DYNAMODB_CONTEXT.create_decimal(n))]:
    a context of 38 digits, with exponents from -128 to 126, that traps
    Clamped, Overflow, Inexact, Rounded and Underflow. *)
Definition store_prec : Z := 38.
Definition store_Emax : Z := 126.
Definition store_Etiny : Z := -165.
Definition store_Etop : Z := 89.

(** The number of decimal digits of a positive integer. *)
Fixpoint count_digits (fuel : nat) (n : Z) : Z :=
  match fuel with
  | O => 1
  | S fuel => if (n <? 10)%Z then 1 else (1 + count_digits fuel (n / 10))%Z
  end.

Definition decimal_digits (n : Z) : Z := count_digits (Z.to_nat (Z.log2 n)) n.

(** The signal, if any, that [create_decimal] raises in that context for
    the number [c * 10 ^ e]: the number must fit the context as it is. *)
Definition number_signal (c e : Z) : option string :=
  let a := Z.abs c in
  if (a =? 0)%Z then
    if (store_Etiny <=? e)%Z && (e <=? store_Emax)%Z then None else Some "Clamped"
  else
    let exp_min := (decimal_digits a + e - store_prec)%Z in
    if (store_Etop <? exp_min)%Z then Some "Overflow"
    else
      let subnormal := (exp_min <? store_Etiny)%Z in
      let exp_min := Z.max exp_min store_Etiny in
      if (e <? exp_min)%Z then
        let k := (exp_min - e)%Z in
        let q := (a / 10 ^ k)%Z in
        let r := (a mod 10 ^ k)%Z in
        let half := (10 ^ k / 2)%Z in
        let up := (half <? r)%Z || ((r =? half)%Z && Z.odd q) in
        if up && (q + 1 =? 10 ^ store_prec)%Z && (store_Etop <? exp_min + 1)%Z
        then Some "Overflow"
        else if (r =? 0)%Z then Some "Rounded"
        else if subnormal then Some "Underflow"
        else Some "Inexact"
      else None.

(** The first number of a value that boto3 does not serialise. *)
Fixpoint unserialisable (v : value) : option string :=
  match v with
  | VInt n => number_signal n 0
  | VDecimal d => number_signal (dec_coeff d) (dec_exp d)
  | VList l | VSet l =>
      foldr (λ x acc, match unserialisable x with Some s => Some s | None => acc end)
        None l
  | VDict m =>
      map_fold (λ _ x acc, match unserialisable x with Some s => Some s | None => acc end)
        None m
  | _ => None
  end.

(** Numbers are stored as the type N and read back as [Decimal]. *)
Fixpoint as_stored (v : value) : value :=
  match v with
  | VInt n => VDecimal (Dec n 0)
  | VList l => VList (as_stored <$> l)
  | VSet l => VSet (as_stored <$> l)
  | VDict m => VDict (as_stored <$> m)
  | _ => v
  end.

Definition float_rejected : ddb_fault :=
  OtherError "TypeError" "Float types are not supported. Use Decimal types instead.".

(** The key condition [Key(attr).eq(val)] of a query, [val] a string. *)
Definition attr_equals (attr val : string) (it : item) : bool :=
  match it !! attr with
  | Some (VStr s) => String.eqb s val
  | _ => false
  end.

Section table_resource.
Context `{Platform}.

(** A number that the context of boto3 traps: the exception of the
    [decimal] module reaches [_call_ddb_method]. *)
Definition number_rejected (signal : string) (rq : request) : ddb_fault :=
  OtherError signal (refusal_text rq).

(** The service refuses a key that does not match the schema of the
    table, and a key attribute that is the empty string. *)
Definition key_rejected (rq : request) : ddb_fault :=
  ClientError (Some (refusal_text rq)) (Some "ValidationException") None.

(** What the client library lets through of the values of a request. *)
Definition serialised (rq : request) (v : value) : option ddb_fault :=
  if has_float v then Some float_rejected
  else match unserialisable v with
       | Some signal => Some (number_rejected signal rq)
       | None => None
       end.

(** A value that the service takes as the hash key [id] of the table,
    whose type is string. *)
Definition as_key (v : value) : option string :=
  match v with
  | VStr EmptyString => None
  | VStr k => Some k
  | _ => None
  end.

(** What the table does with a request that reaches it. *)
Definition ddb_execute (rq : request) (tbl : gmap string item)
  : (ddb_fault + body) * gmap string item :=
  match rq with
  | GetItem key _ =>
      match serialised rq key with
      | Some f => (inl f, tbl)
      | None =>
          match as_key key with
          | Some k => (inr (BodyItem (tbl !! k)), tbl)
          | None => (inl (key_rejected rq), tbl)
          end
      end
  | PutItem it =>
      match serialised rq (VDict it) with
      | Some f => (inl f, tbl)
      | None =>
          match it !! "id" ≫= as_key with
          | Some k => (inr BodyEmpty, <[k := as_stored <$> it]> tbl)
          | None => (inl (key_rejected rq), tbl)
          end
      end
  | DeleteItem key =>
      match serialised rq key with
      | Some f => (inl f, tbl)
      | None =>
          match as_key key with
          | Some k => (inr BodyEmpty, delete k tbl)
          | None => (inl (key_rejected rq), tbl)
          end
      end
  | Scan => (inr (BodyItems (snd <$> map_to_list tbl)), tbl)
  | Query attr val _ =>
      if String.eqb val EmptyString then (inl (key_rejected rq), tbl)
      else (inr (BodyItems (List.filter (attr_equals attr val)
                              (snd <$> map_to_list tbl))), tbl)
  end.

(** One request to the table: it is logged, and it fails with the
    scheduled fault when there is one. *)
Definition ddb_request (rq : request) (st : state) : (ddb_fault + raw) * state :=
  let log := (requests st ++ [rq])%list in
  let md := length (requests st) in
  match faults st with
  | Some f :: rest =>
      (inl f, State (self st) (uuids st) (ticks st) (kms_calls st) (table st) rest log)
  | sched =>
      let '(res, tbl) := ddb_execute rq (table st) in
      (match res with inl f => inl f | inr b => inr (Raw b md) end,
       State (self st) (uuids st) (ticks st) (kms_calls st) tbl (tail sched) log)
  end.

End table_resource.

(** ** Strings *)

(** [c in s] *)
Fixpoint contains_char (c : ascii) (s : string) : bool :=
  match s with
  | EmptyString => false
  | String a rest => Ascii.eqb a c || contains_char c rest
  end.

(** [s.split(c)] *)
Fixpoint split_on (c : ascii) (s : string) : list string :=
  match s with
  | EmptyString => [EmptyString]
  | String a rest =>
      if Ascii.eqb a c then EmptyString :: split_on c rest
      else match split_on c rest with
           | p :: ps => String a p :: ps
           | [] => [String a EmptyString]
           end
  end.

Definition lower_char (c : ascii) : ascii :=
  let n := nat_of_ascii c in
  if (65 <=? n)%nat && (n <=? 90)%nat then ascii_of_nat (n + 32) else c.

(** [s.lower()] *)
Fixpoint lower (s : string) : string :=
  match s with
  | EmptyString => EmptyString
  | String a rest => String (lower_char a) (lower rest)
  end.

(** ['{}'.format(v)] for the values that reach a message: identifiers are
    strings, and the table refuses keys of any other type before a
    message is built from them. *)
Definition format_value (v : value) : string :=
  match v with
  | VStr s => s
  | VNone => "None"
  | VBool true => "True"
  | VBool false => "False"
  | VInt n => pretty n
  | _ => "<object>"
  end.

(** ** class Tokens *)

Module Tokens.
Section tokens.
Context `{Platform}.

(** The class [\s] of the pattern. *)
Definition is_space (c : ascii) : bool :=
  let n := nat_of_ascii c in
  (n =? 32)%nat || ((9 <=? n)%nat && (n <=? 13)%nat).

(** The longest prefix without white space: what [[^\s]+] can consume. *)
Fixpoint non_space_run (s : string) : string :=
  match s with
  | EmptyString => EmptyString
  | String a rest => if is_space a then EmptyString else String a (non_space_run rest)
  end.

(** The prefix of [s] that ends before its last [>]. *)
Fixpoint upto_last_gt (s : string) : option string :=
  match s with
  | EmptyString => None
  | String a rest =>
      match upto_last_gt rest with
      | Some p => Some (String a p)
      | None => if Ascii.eqb a ">" then Some EmptyString else None
      end
  end.

(** [token_re.match(token).group('token')] for the pattern
    [\<(?P<token>[^\s]+)\>]: anchored at the start, the group is greedy
    and backtracks to the last [>] of the run. *)
Definition token_re_match (token : string) : option string :=
  match token with
  | String "<" rest =>
      match non_space_run rest with
      | String a run => String a <$> upto_last_gt run
      | EmptyString => None
      end
  | _ => None
  end.

Definition _get_uuid : M value :=
  λ st, (Ret (VStr (uuid4 (uuids st))), next_uuid st).

Definition _get_timestamp : M value :=
  λ st, (Ret (VInt (time_ms (ticks st))), next_tick st).

(** [Tokens.check]: the only attributes named [_get_...] are the two
    generators above; [re] refuses a subject that is not a string. *)
Definition check (token : value) : M value :=
  match token with
  | VStr s =>
      match token_re_match s with
      | Some name =>
          if String.eqb name "uuid" then _get_uuid
          else if String.eqb name "timestamp" then _get_timestamp
          else ret token
      | None => ret token
      end
  | _ => raise "TypeError"
  end.

End tokens.
End Tokens.

(** ** class CRUD *)

(** [CRUD.__init__] reads its keyword arguments and the description of
    the table (key schema and global secondary indexes). *)
Record kwargs := Kwargs {
  kw_defaults : option (gmap string value);
  kw_supported_ops : option (list string);
  kw_encrypted_attributes : option (list (string * string));
  kw_debug : option bool;
}.

Record gsi := Gsi { IndexName : string; KeySchema : list string }.

Record table_description := TableDescription {
  key_schema : list string;                       (* attribute names *)
  global_secondary_indexes : option (list gsi);
}.

Definition sequence_list {A} (l : list (outcome A)) : outcome (list A) :=
  foldr (λ o acc, outcome_bind o (λ a, outcome_map (cons a) acc)) (Ret []) l.

Definition sequence_map {A} (m : gmap string (outcome A)) : outcome (gmap string A) :=
  map_fold (λ k o acc, outcome_bind o (λ a, outcome_map (insert k a) acc)) (Ret ∅) m.

Definition is_equals_sign (v : value) : bool :=
  match v with
  | VStr s => String.eqb s "="
  | _ => false
  end.

(** ['=' in query_string], for whatever the caller passes as the query. *)
Definition contains_equals (q : value) : outcome bool :=
  match q with
  | VStr s => Ret (contains_char "=" s)
  | VDict m => Ret (bool_decide (is_Some (m !! "=")))
  | VList l | VSet l => Ret (existsb is_equals_sign l)
  | _ => Raise "TypeError"
  end.

(** [key, value = query_string.split('=')] *)
Definition split_key_value (q : value) : outcome (string * string) :=
  match q with
  | VStr s =>
      match split_on "=" s with
      | [key; val] => Ret (key, val)
      | _ => Raise "ValueError"
      end
  | _ => Raise "AttributeError"
  end.

(** [item['id']] in the dispatcher. *)
Definition subscript_id (it : value) : outcome value :=
  match it with
  | VDict m =>
      match m !! "id" with
      | Some v => Ret v
      | None => Raise "KeyError"
      end
  | _ => Raise "TypeError"
  end.

Module CRUD.
Section crud.
Context `{Platform}.

(** [CRUD._analyze_table] *)
Definition _analyze_table (t : table_description) : outcome (gmap string string) :=
  match key_schema t with
  | [hash] =>
      if String.eqb hash "id" then
        Ret (match global_secondary_indexes t with
             | Some gsis =>
                 foldl (λ idx g,
                          match KeySchema g with
                          | [gsi_hash] => <[gsi_hash := IndexName g]> idx
                          | _ => idx
                          end) ∅ gsis
             | None => ∅
             end)
      else Raise "CruddyKeyNameException"
  | _ => Raise "CruddyKeySchemaException"
  end.

(** [CRUD.__init__] *)
Definition __init__ (kw : kwargs) (t : table_description) : outcome crud :=
  let defaults := default ∅ (kw_defaults kw) in
  let defaults := <["id" := VStr "<uuid>"]> defaults in
  let defaults := <["created_at" := VStr "<timestamp>"]> defaults in
  outcome_map
    (λ idx, Crud defaults (default SupportedOps (kw_supported_ops kw))
              (default [] (kw_encrypted_attributes kw)) idx
              (default false (kw_debug kw)))
    (_analyze_table t).

(** [CRUD._replace_decimals].  The source rewrites lists and dictionaries
    in place; the values it is applied to are freshly deserialised
    responses, which nothing else refers to. *)
Fixpoint _replace_decimals (obj : value) : outcome value :=
  match obj with
  | VList l => outcome_map VList (sequence_list (_replace_decimals <$> l))
  | VDict m => outcome_map VDict (sequence_map (_replace_decimals <$> m))
  | VDecimal d =>
      outcome_map
        (λ whole : bool,
           if whole then VInt (decimal_to_int d) else VFloat (float_of_decimal d))
        (decimal_mod_one_is_zero d)
  | _ => Ret obj
  end.

(** The KMS refuses a plaintext that is not a string before any call. *)
Definition kms_encrypt_call (master_key_id : string) (plaintext : value) : M string :=
  match plaintext with
  | VStr p => λ st, (kms_encrypt (kms_calls st) master_key_id p, next_kms_call st)
  | _ => raise "ParamValidationError"
  end.

Definition kms_decrypt_call (ciphertext : value) : M string :=
  match ciphertext with
  | VStr c =>
      match b64decode c with
      | Some blob => λ st, (kms_decrypt (kms_calls st) blob, next_kms_call st)
      | None => raise "TypeError"
      end
  | _ => raise "TypeError"
  end.

Fixpoint _encrypt_loop (attrs : list (string * string)) (it : item) : M item :=
  match attrs with
  | [] => ret it
  | (encrypted_attr, master_key_id) :: rest =>
      match it !! encrypted_attr with
      | Some plaintext =>
          blob <~ kms_encrypt_call master_key_id plaintext ;;
          _encrypt_loop rest (<[encrypted_attr := VStr (b64encode blob)]> it)
      | None => _encrypt_loop rest it
      end
  end.

(** [CRUD._encrypt] *)
Definition _encrypt (it : item) : M item :=
  attrs <~ gets (λ st, encrypted_attributes (self st)) ;;
  _encrypt_loop attrs it.

Fixpoint _decrypt_loop (attrs : list (string * string)) (it : item) : M item :=
  match attrs with
  | [] => ret it
  | (encrypted_attr, master_key_id) :: rest =>
      match it !! encrypted_attr with
      | Some ciphertext =>
          plaintext <~ kms_decrypt_call ciphertext ;;
          _decrypt_loop rest (<[encrypted_attr := VStr plaintext]> it)
      | None => _decrypt_loop rest it
      end
  end.

(** [CRUD._decrypt] *)
Definition _decrypt (it : item) : M item :=
  attrs <~ gets (λ st, encrypted_attributes (self st)) ;;
  _decrypt_loop attrs it.

Fixpoint _handle_defaults_loop (missing : list (string * value)) (it : item) : M item :=
  match missing with
  | [] => ret it
  | (key, token) :: rest =>
      v <~ Tokens.check token ;;
      _handle_defaults_loop rest (<[key := v]> it)
  end.

(** [CRUD._handle_defaults]: the keys of [defaults] that the item lacks
    are visited in the order of the map. *)
Definition _handle_defaults (it : item) (response : CRUDResponse) : M item :=
  dflt <~ gets (λ st, defaults (self st)) ;;
  _handle_defaults_loop (map_to_list (dflt ∖ it)) it.

(** [CRUD._check_supported_op] *)
Definition _check_supported_op (op_name : string) (response : CRUDResponse)
  : M (bool * CRUDResponse) :=
  ops <~ gets (λ st, supported_ops (self st)) ;;
  if bool_decide (op_name ∈ ops) then ret (true, response)
  else ret (false, report response "UnsupportedOperation"
                     ("Unsupported operation: " ++ op_name)).

(** [CRUD._call_ddb_method] *)
Definition _call_ddb_method (rq : request) (response : CRUDResponse) : M CRUDResponse :=
  λ st,
    match ddb_request rq st with
    | (inr rr, st') => (Ret (set_raw_response response rr), st')
    | (inl (ClientError message code type_), st') =>
        (Ret (set_error_type
                (set_error_code
                   (set_error_message (set_status response "error") message)
                   code)
                type_), st')
    | (inl (OtherError cls message), st') =>
        (Ret (set_error_message
                (set_error_code
                   (set_error_type (set_status response "error") (Some cls))
                   None)
                (Some message)), st')
    end.

(** [CRUD._new_response] *)
Definition _new_response : M CRUDResponse :=
  debug <~ gets (λ st, _debug (self st)) ;;
  ret (new_CRUDResponse debug).

(** [CRUD.query] *)
Definition query (query_string : value) : M CRUDResponse :=
  response <~ _new_response ;;
  chk <~ _check_supported_op "query" response ;;
  let '(supported, response) := chk in
  response <~
    (if supported then
       has_eq <~ lift (contains_equals query_string) ;;
       if negb has_eq then
         ret (report response "InvalidQuery" "Only the = operation is supported")
       else
         kv <~ lift (split_key_value query_string) ;;
         let '(key, val) := kv in
         indexes <~ gets (λ st, _indexes (self st)) ;;
         match indexes !! key with
         | None =>
             ret (report response "InvalidQuery"
                    ("Attribute " ++ key ++ " is not indexed"))
         | Some index_name =>
             response <~ _call_ddb_method (Query key val index_name) response ;;
             if String.eqb (status response) "success" then
               match raw_response response with
               | Some (Raw (BodyItems items) _) =>
                   v <~ lift (_replace_decimals (VList (VDict <$> items))) ;;
                   ret (set_data response v)
               | Some _ => raise "KeyError"
               | None => raise "TypeError"
               end
             else ret response
         end
     else ret response) ;;
  ret (prepare response).

(** [CRUD.get] *)
Definition get (id : value) (decrypt : bool) : M CRUDResponse :=
  response <~ _new_response ;;
  chk <~ _check_supported_op "get" response ;;
  let '(supported, response) := chk in
  response <~
    (if supported then
       match id with
       | VNone => ret (report response "IDRequired" "Get requires an id")
       | _ =>
           response <~ _call_ddb_method (GetItem id true) response ;;
           if String.eqb (status response) "success" then
             match raw_response response with
             | Some (Raw (BodyItem (Some it)) _) =>
                 it <~ (if decrypt then _decrypt it else ret it) ;;
                 v <~ lift (_replace_decimals (VDict it)) ;;
                 ret (set_data response v)
             | Some _ =>
                 ret (report response "NotFound"
                        ("Item with id (" ++ format_value id ++ ") not found"))
             | None => raise "TypeError"
             end
           else ret response
       end
     else ret response) ;;
  ret (prepare response).

(** [CRUD.create].  The payload is meant to be a dictionary; anything
    else has no [keys()]. *)
Definition create (payload : value) : M CRUDResponse :=
  response <~ _new_response ;;
  chk <~ _check_supported_op "create" response ;;
  let '(supported, response) := chk in
  response <~
    (if supported then
       match payload with
       | VDict it =>
           it <~ _handle_defaults it response ;;
           match it !! "created_at" with
           | None => raise "KeyError"
           | Some created_at =>
               it <~ _encrypt (<["modified_at" := created_at]> it) ;;
               response <~ _call_ddb_method (PutItem it) response ;;
               if String.eqb (status response) "success" then
                 ret (set_data response (VDict it))
               else ret response
           end
       | _ => raise "AttributeError"
       end
     else ret response) ;;
  ret (prepare response).

(** [CRUD.update].  The timestamp is read before the assignment to
    [item['modified_at']], which only a dictionary supports. *)
Definition update (payload : value) : M CRUDResponse :=
  response <~ _new_response ;;
  chk <~ _check_supported_op "update" response ;;
  let '(supported, response) := chk in
  response <~
    (if supported then
       now <~ Tokens.check (VStr "<timestamp>") ;;
       match payload with
       | VDict it =>
           it <~ _encrypt (<["modified_at" := now]> it) ;;
           response <~ _call_ddb_method (PutItem it) response ;;
           if String.eqb (status response) "success" then
             ret (set_data response (VDict it))
           else ret response
       | _ => raise "TypeError"
       end
     else ret response) ;;
  ret (prepare response).

(** [CRUD.delete] *)
Definition delete (id : value) : M CRUDResponse :=
  response <~ _new_response ;;
  chk <~ _check_supported_op "delete" response ;;
  let '(supported, response) := chk in
  response <~
    (if supported then
       match id with
       | VNone => ret (report response "IDRequired" "Delete requires an id")
       | _ => _call_ddb_method (DeleteItem id) response
       end
     else ret response) ;;
  ret (prepare response).

(** [CRUD.list] *)
Definition list : M CRUDResponse :=
  response <~ _new_response ;;
  chk <~ _check_supported_op "list" response ;;
  let '(supported, response) := chk in
  response <~
    (if supported then
       response <~ _call_ddb_method Scan response ;;
       if String.eqb (status response) "success" then
         match raw_response response with
         | Some (Raw (BodyItems items) _) =>
             v <~ lift (_replace_decimals (VList (VDict <$> items))) ;;
             ret (set_data response v)
         | Some _ => raise "KeyError"
         | None => raise "TypeError"
         end
       else ret response
     else ret response) ;;
  ret (prepare response).

(** [CRUD.handler] *)
Definition handler (payload : value) (operation : string) : M CRUDResponse :=
  response <~ _new_response ;;
  let operation := lower operation in
  chk <~ _check_supported_op operation response ;;
  let response := snd chk in
  if String.eqb (status response) "success" then
    if String.eqb operation "list" then list
    else if String.eqb operation "get" then
      id <~ lift (subscript_id payload) ;; get id false
    else if String.eqb operation "create" then create payload
    else if String.eqb operation "update" then update payload
    else if String.eqb operation "delete" then
      id <~ lift (subscript_id payload) ;; delete id
    else if String.eqb operation "query" then query payload
    else ret response
  else ret response.

End crud.
End CRUD.

(** ** A reference platform

    One concrete platform, on which the operations can be run: standard
    base64, a clock that advances by one millisecond per reading, numbered
    identifiers, and a key-management service that wraps the plaintext. *)

Module Base64.

Definition alphabet : list ascii :=
  String.list_ascii_of_string
    "ABCDEFGHIJKLMNOPQRSTUVWXYZabcdefghijklmnopqrstuvwxyz0123456789+/".

(** The character of a six-bit group. *)
Definition digit (n : N) : ascii := nth (N.to_nat n) alphabet "A"%char.

Fixpoint position (c : ascii) (l : list ascii) (i : N) : option N :=
  match l with
  | [] => None
  | a :: l' => if Ascii.eqb a c then Some i else position c l' (N.succ i)
  end.

(** The six-bit group of a character of the alphabet. *)
Definition sextet (c : ascii) : option N := position c alphabet 0.

Definition byte (n : N) : ascii := ascii_of_N n.

Fixpoint encode (s : string) : string :=
  match s with
  | EmptyString => EmptyString
  | String a EmptyString =>
      let a := N_of_ascii a in
      String (digit (a / 4)) (String (digit (a mod 4 * 16)) "==")
  | String a (String b EmptyString) =>
      let a := N_of_ascii a in
      let b := N_of_ascii b in
      String (digit (a / 4))
        (String (digit (a mod 4 * 16 + b / 16))
           (String (digit (b mod 16 * 4)) "="))
  | String a (String b (String c rest)) =>
      let a := N_of_ascii a in
      let b := N_of_ascii b in
      let c := N_of_ascii c in
      String (digit (a / 4))
        (String (digit (a mod 4 * 16 + b / 16))
           (String (digit (b mod 16 * 4 + c / 64))
              (String (digit (c mod 64)) (encode rest))))
  end.

(** One group of four characters; [tail] is the decoding of what follows
    the group, [last] tells whether the group ends the input. *)
Definition decode_group (c1 c2 c3 c4 : ascii) (last : bool)
    (tail : option string) : option string :=
  match sextet c1, sextet c2 with
  | Some v1, Some v2 =>
      let b1 := byte (v1 * 4 + v2 / 16) in
      if Ascii.eqb c3 "=" then
        if Ascii.eqb c4 "=" && last then Some (String b1 EmptyString) else None
      else
        match sextet c3 with
        | Some v3 =>
            let b2 := byte (v2 mod 16 * 16 + v3 / 4) in
            if Ascii.eqb c4 "=" then
              if last then Some (String b1 (String b2 EmptyString)) else None
            else
              match sextet c4 with
              | Some v4 =>
                  let b3 := byte (v3 mod 4 * 64 + v4) in
                  (λ t, String b1 (String b2 (String b3 t))) <$> tail
              | None => None
              end
        | None => None
        end
  | _, _ => None
  end.

Definition is_empty (s : string) : bool :=
  match s with
  | EmptyString => true
  | _ => false
  end.

(** Decoding of padded input whose characters all belong to the alphabet;
    anything else is refused. *)
Fixpoint decode (s : string) : option string :=
  match s with
  | EmptyString => Some EmptyString
  | String c1 (String c2 (String c3 (String c4 rest))) =>
      decode_group c1 c2 c3 c4 (is_empty rest) (decode rest)
  | _ => None
  end.

End Base64.

(** [float(obj)]: the binary64 number nearest to the decimal, ties to
    even, found in one rounding from its coefficient and its power of
    ten taken exactly. *)
Definition reference_float (d : decimal) : spec_float :=
  let exact n := S754_finite (n <? 0)%Z (Z.to_pos (Z.abs n)) 0 in
  if (dec_coeff d =? 0)%Z then S754_zero false
  else if (0 <=? dec_exp d)%Z then
    binary_normalize 53 1024 (dec_coeff d * 10 ^ dec_exp d)%Z 0 false
  else SFdiv 53 1024 (exact (dec_coeff d)) (exact (10 ^ (- dec_exp d))%Z).

(** The wording of the refusals, after the service's. *)
Definition reference_refusal_text (rq : request) : string :=
  match rq with
  | PutItem _ => "One or more parameter values were invalid"
  | Query _ _ _ => "One or more parameter values are not valid"
  | _ => "The provided key element does not match the schema"
  end.

Definition reference_kms_decrypt (blob : string) : outcome string :=
  match blob with
  | String "K" (String "M" (String "S" (String ":" plaintext))) => Ret plaintext
  | _ => Raise "ClientError"
  end.

Definition reference_platform : Platform := {|
  uuid4 n := "uuid-" ++ pretty n;
  time_ms n := (1469000000000 + Z.of_nat n)%Z;
  float_of_decimal := reference_float;
  b64encode := Base64.encode;
  b64decode := Base64.decode;
  kms_encrypt _ _ plaintext := Ret ("KMS:" ++ plaintext);
  kms_decrypt _ := reference_kms_decrypt;
  refusal_text := reference_refusal_text;
|}.

(** ** Vocabulary of the specification *)

(** A call on a handler: one of the six operations, or the dispatcher. *)
Inductive call :=
  | CallQuery (query_string : value)
  | CallList
  | CallGet (id : value) (decrypt : bool)
  | CallCreate (payload : value)
  | CallUpdate (payload : value)
  | CallDelete (id : value)
  | CallHandler (payload : value) (operation : string).

Definition invoke `{Platform} (c : call) : M CRUDResponse :=
  match c with
  | CallQuery q => CRUD.query q
  | CallList => CRUD.list
  | CallGet id decrypt => CRUD.get id decrypt
  | CallCreate payload => CRUD.create payload
  | CallUpdate payload => CRUD.update payload
  | CallDelete id => CRUD.delete id
  | CallHandler payload operation => CRUD.handler payload operation
  end.

(** The operation name that the caller of a call names. *)
Definition named_operation (c : call) : string :=
  match c with
  | CallQuery _ => "query"
  | CallList => "list"
  | CallGet _ _ => "get"
  | CallCreate _ => "create"
  | CallUpdate _ => "update"
  | CallDelete _ => "delete"
  | CallHandler _ operation => operation
  end.

(** The invariant of response envelopes. *)
Definition envelope_invariant (r : CRUDResponse) : Prop :=
  (status r = "success" ∨ status r = "error") ∧
  (status r = "error" → data r = VNone) ∧
  (status r = "success" →
   error_type r = None ∧ error_code r = None ∧ error_message r = None).

(** An error envelope of a given kind. *)
Definition is_error (kind : string) (r : CRUDResponse) : Prop :=
  status r = "error" ∧ error_type r = Some kind ∧ data r = VNone.

(** A handler object as [CRUD.__init__] builds them. *)
Definition initialised (c : crud) : Prop :=
  ∃ kw t, CRUD.__init__ kw t = Ret c.

(** The names of the attributes configured for encryption. *)
Definition encrypted_names (c : crud) : list string := (encrypted_attributes c).*1.

(** Number of occurrences of a character in a string. *)
Fixpoint occurrences (c : ascii) (s : string) : nat :=
  match s with
  | EmptyString => 0
  | String a rest => (if Ascii.eqb a c then 1 else 0) + occurrences c rest
  end.

(** The attribute named by a query string: what stands left of the
    first [=]. *)
Definition query_attribute (s : string) : string := hd EmptyString (split_on "=" s).

(** The value named by a query string: what stands right of the first
    [=]. *)
Definition query_value (s : string) : string :=
  hd EmptyString (tail (split_on "=" s)).

(** The envelope reports the fault [f] of the store as it came. *)
Definition fault_reported (f : ddb_fault) (r : CRUDResponse) : Prop :=
  status r = "error" ∧ data r = VNone ∧
  match f with
  | ClientError message code type_ =>
      error_message r = message ∧ error_code r = code ∧ error_type r = type_
  | OtherError cls message =>
      error_message r = Some message ∧ error_code r = None ∧
      error_type r = Some cls
  end.

(** [create], given the item [it] in the state [st], gets as far as the
    store: with the defaults filled in, modified_at copied from created_at
    and the configured attributes encrypted, the item to write is [it2]
    and the state is [st2]. *)
Definition create_sends `{Platform} (it : item) (st : state)
    (it2 : item) (st2 : state) : Prop :=
  ∃ it1 st1 created_at,
    CRUD._handle_defaults it (new_CRUDResponse (_debug (self st))) st = (Ret it1, st1) ∧
    it1 !! "created_at" = Some created_at ∧
    CRUD._encrypt (<["modified_at" := created_at]> it1) st1 = (Ret it2, st2).

(** The stored value of an attribute of the item with hash key [k]. *)
Definition stored_attribute (st : state) (k attr : string) : option value :=
  table st !! k ≫= λ it : item, it !! attr.

(** ** Example configurations *)

Definition example_table : table_description :=
  TableDescription ["id"] (Some [Gsi "foo-index" ["foo"]; Gsi "bar-baz-index" ["bar"; "baz"]]).

Definition handler_with (kw : kwargs) : crud :=
  match CRUD.__init__ kw example_table with
  | Ret c => c
  | Raise _ => Crud ∅ [] [] ∅ false
  end.

(** The handler built without optional arguments. *)
Definition default_handler : crud := handler_with (Kwargs None None None None).

(** A handler that only supports reads by key. *)
Definition read_only_handler : crud :=
  handler_with (Kwargs None (Some ["get"]) None None).

(** A handler that only supports listing. *)
Definition list_only_handler : crud :=
  handler_with (Kwargs None (Some ["list"]) None None).

(** A handler that encrypts the attribute [ssn]. *)
Definition encrypting_handler : crud :=
  handler_with (Kwargs None None (Some [("ssn", "key-1")]) None).

(** A handler that encrypts [modified_at]. *)
Definition stamp_encrypting_handler : crud :=
  handler_with (Kwargs None None (Some [("modified_at", "key-1")]) None).

(** A handler started on an empty table. *)
Definition initial_state (c : crud) : state := State c 0 0 0 ∅ [] [].

(** The same, with the first store request doomed to fail. *)
Definition failing_state (c : crud) : state :=
  State c 0 0 0 ∅
    [Some (ClientError (Some "Rate exceeded") (Some "ProvisionedThroughputExceededException") None)]
    [].

(** The state a run ends in, and the response it returns. *)
Definition state_after {A} (m : M A) (st : state) : state := snd (m st).

Definition response_of (m : M CRUDResponse) (st : state) : CRUDResponse :=
  match fst (m st) with
  | Ret r => r
  | Raise _ => new_CRUDResponse false
  end.

(** The name that a call submits to the allow-list: the dispatcher
    lower-cases the name it is given. *)
Definition checked_operation (c : call) : string :=
  match c with
  | CallHandler _ operation => lower operation
  | _ => named_operation c
  end.

(** A response on which no operation has reported anything yet. *)
Definition untouched (r : CRUDResponse) : Prop :=
  status r = "success" ∧ data r = VNone ∧
  error_type r = None ∧ error_code r = None ∧ error_message r = None.

(** [advances st st']: from [st] to [st'] only the oracle counters moved
    on; the handler, the table, the schedule of faults and the request
    log are the same. *)
Definition advances (st st' : state) : Prop :=
  self st' = self st ∧ table st' = table st ∧ faults st' = faults st ∧
  requests st' = requests st ∧
  (uuids st ≤ uuids st')%nat ∧ (ticks st ≤ ticks st')%nat ∧
  (kms_calls st ≤ kms_calls st')%nat.

(** The timestamp [t] as the table stores it. *)
Definition stored_timestamp (t : Z) : value := VDecimal (Dec t 0).

(** The stored [modified_at] of the item [k], if any, is a reading that
    the clock has already given. *)
Definition clock_stamped `{Platform} (st : state) (k : string) : Prop :=
  ∀ v, stored_attribute st k "modified_at" = Some v →
       ∃ m, (m < ticks st)%nat ∧ v = stored_timestamp (time_ms m).

(** The numeric order on stored timestamps. *)
Definition timestamp_le (v1 v2 : value) : Prop :=
  match v1, v2 with
  | VDecimal (Dec t1 0), VDecimal (Dec t2 0) => (t1 ≤ t2)%Z
  | _, _ => False
  end.

(** [wrapped n v v']: [v'] is [v] after [n] rounds of encryption, each
    round replacing a plaintext string by the base64 text of its
    ciphertext; the outermost round comes last. *)
Inductive wrapped `{Platform} : nat → value → value → Prop :=
  | wrapped_none v : wrapped 0 v v
  | wrapped_more n v p i key blob :
      wrapped n v (VStr p) →
      kms_encrypt i key p = Ret blob →
      wrapped (S n) v (VStr (b64encode blob)).

(** The number of times an attribute is configured for encryption. *)
Definition rounds (a : string) (attrs : list (string * string)) : nat :=
  length (filter (λ p, p.1 = a) attrs).

(** ** Decimal-to-native conversion, in the words of the specification *)

(** A decimal value that is a whole number. *)
Definition decimal_is_whole (d : decimal) : bool :=
  (0 <=? dec_exp d)%Z || (dec_coeff d mod 10 ^ (- dec_exp d) =? 0)%Z.

(** The conversion recurses through mappings and sequences and turns
    whole decimals into integers and the others into floats. *)
Fixpoint native `{Platform} (v : value) : value :=
  match v with
  | VList l => VList (native <$> l)
  | VDict m => VDict (native <$> m)
  | VDecimal d =>
      if decimal_is_whole d then VInt (decimal_to_int d)
      else VFloat (float_of_decimal d)
  | _ => v
  end.

(** Every decimal reached through mappings and sequences has an integer
    part of at most [context_prec] digits. *)
Fixpoint within_precision (v : value) : bool :=
  match v with
  | VDecimal d => (Z.abs (decimal_to_int d) <? 10 ^ context_prec)%Z
  | VList l => forallb within_precision l
  | VDict m => map_fold (λ _ x acc, within_precision x && acc) true m
  | _ => true
  end.

Fixpoint value_size (v : value) : nat :=
  match v with
  | VList l | VSet l => S (foldr (λ x n, value_size x + n) 0 l)
  | VDict m => S (map_fold (λ _ x n, value_size x + n) 0 m)
  | _ => 1
  end.

(** ** Example runs *)

(** An item with a social security number, for [encrypting_handler]. *)
Definition person : item := {[ "name" := VStr "Ada"; "ssn" := VStr "078-05-1120" ]}.

(** An item that brings its own timestamps. *)
Definition backdated : item :=
  {[ "created_at" := VStr "2016-07-20"; "modified_at" := VStr "secret" ]}.

(** An item created with a timestamp of the year 2286. *)
Definition postdated : item :=
  {[ "id" := VStr "a"; "created_at" := VInt 9999999999999 ]}.

(** An item with a whole number of 29 digits. *)
Definition large : item := {[ "id" := VStr "a"; "n" := VInt (10 ^ 28) ]}.

(** ** Further vocabulary *)

(** No run of [m] changes the component [f] of the state. *)
Definition preserves {A B} (f : state → B) (m : M A) : Prop :=
  ∀ st o st', m st = (o, st') → f st' = f st.

(** Every run of [m] appends at most [n] requests to the log, and takes
    none away. *)
Definition issues {A} (n : nat) (m : M A) : Prop :=
  ∀ st o st', m st = (o, st') →
    ∃ l, requests st' = (requests st ++ l)%list ∧ (length l ≤ n)%nat.

(** The calls that read: query, list and get. *)
Definition is_read (c : call) : bool :=
  match c with
  | CallQuery _ | CallList | CallGet _ _ => true
  | _ => false
  end.

(** The calls that never reach the key-management service. *)
Definition without_kms (c : call) : bool :=
  match c with
  | CallQuery _ | CallList | CallGet _ false | CallDelete _ => true
  | _ => false
  end.

(** The requests that read. *)
Definition is_read_request (rq : request) : bool :=
  match rq with
  | GetItem _ _ | Scan | Query _ _ _ => true
  | _ => false
  end.

(** The declared indexes of a table. *)
Definition declared_indexes (t : table_description) : list gsi :=
  default [] (global_secondary_indexes t).

(** The indexes whose key schema is the attribute [a] alone. *)
Definition indexes_on (a : string) (gsis : list gsi) : list gsi :=
  filter (λ g, KeySchema g = [a]) gsis.

(** A string without white space. *)
Fixpoint no_space (s : string) : bool :=
  match s with
  | EmptyString => true
  | String a rest => negb (Tokens.is_space a) && no_space rest
  end.

(** The fault, if any, that awaits the next store request. *)
Definition pending_fault (st : state) : option ddb_fault :=
  match faults st with
  | Some f :: _ => Some f
  | _ => None
  end.

(** The operation name and the request of the calls that go to the
    store without any preparation. *)
Definition direct_request (c : call) : option (string * request) :=
  match c with
  | CallList => Some ("list", Scan)
  | CallGet VNone _ => None
  | CallGet id _ => Some ("get", GetItem id true)
  | CallDelete VNone => None
  | CallDelete id => Some ("delete", DeleteItem id)
  | _ => None
  end.

(** The calls that write an item. *)
Definition is_write (c : call) : bool :=
  match c with
  | CallCreate _ | CallUpdate _ => true
  | _ => false
  end.

(** Values that the table gives back as they were written: strings,
    booleans, None, integers within the precision of the decimal context,
    and lists and dictionaries of such values. *)
Fixpoint plain (v : value) : bool :=
  match v with
  | VNone | VBool _ | VStr _ => true
  | VInt n => (Z.abs n <? 10 ^ context_prec)%Z
  | VList l => forallb plain l
  | VDict m => map_fold (λ _ x acc, plain x && acc) true m
  | _ => false
  end.

(** The items of the table, in the order of a scan. *)
Definition scanned (st : state) : list value := VDict <$> (map_to_list (table st)).*2.


(** A run of [m] changes the table only when it returns an envelope with
    the status success. *)
Definition settles (m : M CRUDResponse) : Prop :=
  ∀ st o st', m st = (o, st') →
    table st' = table st ∨ ∃ r, o = Ret r ∧ status r = "success".

(** The direct call that the dispatcher makes for an operation name. *)
Definition route (payload : value) (name : string) : option call :=
  if String.eqb name "list" then Some CallList
  else if String.eqb name "get" then
    match subscript_id payload with
    | Ret id => Some (CallGet id false)
    | Raise _ => None
    end
  else if String.eqb name "create" then Some (CallCreate payload)
  else if String.eqb name "update" then Some (CallUpdate payload)
  else if String.eqb name "delete" then
    match subscript_id payload with
    | Ret id => Some (CallDelete id)
    | Raise _ => None
    end
  else if String.eqb name "query" then Some (CallQuery payload)
  else None.

(** What [prepare] leaves of the raw response in a success envelope:
    with debug the raw response and no metadata, without debug the
    metadata and no raw response. *)
Definition prepared (debug : bool) (r : CRUDResponse) : Prop :=
  status r = "success" →
  resp_debug r = debug ∧
  if debug then metadata r = None
  else raw_response r = None.

(** An envelope on which [prepare] has not worked yet. *)
Definition unprepared (debug : bool) (r : CRUDResponse) : Prop :=
  resp_debug r = debug ∧ metadata r = None.

(** ** Further example configurations *)

(** A handler with a default that is not a string. *)
Definition counting_handler : crud :=
  handler_with (Kwargs (Some {[ "visits" := VInt 0 ]}) None None None).

(** A handler whose allow-list names an operation that does not exist. *)
Definition pinging_handler : crud :=
  handler_with (Kwargs None (Some ["ping"; "get"]) None None).

(** The table after one create. *)
Definition populated_state (c : crud) : state :=
  state_after (CRUD.create (H := reference_platform) (VDict person))
    (initial_state c).

(** * Properties *)

(** ** Reasoning about runs *)

Lemma bind_Ret {A B} (m : M A) (k : A → M B) st b st2 :
  bind m k st = (Ret b, st2) →
  ∃ a st1, m st = (Ret a, st1) ∧ k a st1 = (Ret b, st2).
Proof. unfold bind. destruct (m st) as [[a|e] st1]; [eauto|done]. Qed.

Lemma bind_run {A B} (m : M A) (k : A → M B) st a st1 :
  m st = (Ret a, st1) → bind m k st = k a st1.
Proof. unfold bind. by intros ->. Qed.

Lemma bind_raise {A B} (m : M A) (k : A → M B) st e st1 :
  m st = (Raise e, st1) → bind m k st = (Raise e, st1).
Proof. unfold bind. by intros ->. Qed.

(** Decompose a run that returns into the runs of its parts. *)
Ltac run_inv :=
  repeat match goal with
  | H : bind _ _ _ = (Ret _, _) |- _ =>
      apply bind_Ret in H as (? & ? & ? & H)
  | H : ret _ _ = (_, _) |- _ => unfold ret in H; simplify_eq
  | H : raise _ _ = (Ret _, _) |- _ => discriminate H
  | H : gets _ _ = (_, _) |- _ => unfold gets in H; simplify_eq
  | H : lift _ _ = (_, _) |- _ => unfold lift in H; simplify_eq
  | H : (match ?x with _ => _ end) _ = (_, _) |- _ => destruct x eqn:?
  end.

Section runs.
Context `{Platform}.

Lemma new_response_run st :
  CRUD._new_response st = (Ret (new_CRUDResponse (_debug (self st))), st).
Proof. reflexivity. Qed.

Lemma check_supported_op_true op r st :
  op ∈ supported_ops (self st) →
  CRUD._check_supported_op op r st = (Ret (true, r), st).
Proof.
  intros Hop. unfold CRUD._check_supported_op, bind, gets.
  by rewrite bool_decide_eq_true_2.
Qed.

Lemma check_supported_op_false op r st :
  op ∉ supported_ops (self st) →
  CRUD._check_supported_op op r st
  = (Ret (false, report r "UnsupportedOperation" ("Unsupported operation: " ++ op)), st).
Proof.
  intros Hop. unfold CRUD._check_supported_op, bind, gets.
  by rewrite bool_decide_eq_false_2.
Qed.

Lemma check_supported_op_cases op r st chk st' :
  CRUD._check_supported_op op r st = (Ret chk, st') →
  st' = st ∧
  (op ∈ supported_ops (self st) ∧ chk = (true, r) ∨
   (op ∉ supported_ops (self st)) ∧
   chk = (false, report r "UnsupportedOperation" ("Unsupported operation: " ++ op))).
Proof.
  destruct (decide (op ∈ supported_ops (self st))) as [Hop|Hop].
  - rewrite check_supported_op_true by done. intros [= <- <-]. auto.
  - rewrite check_supported_op_false by done. intros [= <- <-]. auto.
Qed.

(** A store request never raises: its failures are recorded in the
    response. *)
Lemma call_ddb_method_returns rq r st :
  ∃ r' st', CRUD._call_ddb_method rq r st = (Ret r', st').
Proof.
  unfold CRUD._call_ddb_method.
  destruct (ddb_request rq st) as [[[]|] ?]; eauto.
Qed.

Lemma ddb_request_logged rq st res st' :
  ddb_request rq st = (res, st') →
  requests st' = (requests st ++ [rq])%list ∧ self st' = self st ∧
  uuids st' = uuids st ∧ ticks st' = ticks st ∧ kms_calls st' = kms_calls st.
Proof.
  unfold ddb_request. intros Hrq.
  destruct (faults st) as [|[f|] rest]; [| |];
    try destruct (ddb_execute rq (table st)) as [? ?]; by simplify_eq.
Qed.

Lemma call_ddb_method_logged rq r st r' st' :
  CRUD._call_ddb_method rq r st = (Ret r', st') →
  requests st' = (requests st ++ [rq])%list ∧ self st' = self st ∧
  uuids st' = uuids st ∧ ticks st' = ticks st ∧ kms_calls st' = kms_calls st.
Proof.
  unfold CRUD._call_ddb_method. intros Hrun.
  destruct (ddb_request rq st) as [res st1] eqn:Hrq.
  apply ddb_request_logged in Hrq.
  destruct res as [[]|]; by simplify_eq.
Qed.

End runs.

(** ** The envelope invariant *)

Section envelope.
Context `{Platform}.

Lemma untouched_invariant r : untouched r → envelope_invariant r.
Proof. unfold untouched, envelope_invariant. intuition congruence. Qed.

Lemma untouched_new debug : untouched (new_CRUDResponse debug).
Proof. by repeat split. Qed.

Lemma report_invariant r ty msg : data r = VNone → envelope_invariant (report r ty msg).
Proof. unfold envelope_invariant. cbn. intros ->. by intuition. Qed.

Lemma error_invariant r : status r = "error" → data r = VNone → envelope_invariant r.
Proof. unfold envelope_invariant. intros -> ->. by intuition. Qed.

Lemma prepare_invariant r : envelope_invariant r → envelope_invariant (prepare r).
Proof. unfold prepare. by repeat case_match. Qed.

Lemma set_data_invariant r v : untouched r → envelope_invariant (set_data r v).
Proof. unfold untouched, envelope_invariant. cbn. intuition congruence. Qed.

Lemma call_ddb_method_untouched rq debug st r' st' :
  CRUD._call_ddb_method rq (new_CRUDResponse debug) st = (Ret r', st') →
  untouched r' ∨ (status r' = "error" ∧ data r' = VNone).
Proof.
  unfold CRUD._call_ddb_method. intros Hrun.
  destruct (ddb_request rq st) as [[[]|] ?]; simplify_eq; cbn; auto.
  left. by repeat split.
Qed.

(** The common frame of the six operations: a new response, the check
    against the allow-list, the body, and [prepare]. *)
Ltac enter_operation Hrun :=
  let Hchk := fresh "Hchk" in
  let Hbody := fresh "Hbody" in
  apply bind_Ret in Hrun as (? & ? & [= <- <-] & Hrun);
  apply bind_Ret in Hrun as ([] & ? & [-> Hchk]%check_supported_op_cases & Hrun);
  apply bind_Ret in Hrun as (? & ? & Hbody & Hrun);
  unfold ret in Hrun; injection Hrun as <- <-;
  apply prepare_invariant;
  destruct Hchk as [[? [= -> ->]]|[? [= -> ->]]];
  [|unfold ret in Hbody; injection Hbody as <- <-; by apply report_invariant].

Ltac close_invariant :=
  try (by apply report_invariant);
  try match goal with
  | Hc : CRUD._call_ddb_method _ _ _ = _ |- _ =>
      apply call_ddb_method_untouched in Hc as [Hc|[Hc1 Hc2]];
      first [ by apply set_data_invariant
            | by apply untouched_invariant
            | by apply error_invariant
            | by apply report_invariant; apply Hc
            | exfalso; rewrite Hc1 in *; discriminate ]
  end.

Lemma query_invariant q st r st' :
  CRUD.query q st = (Ret r, st') → envelope_invariant r.
Proof. unfold CRUD.query. intros Hrun. enter_operation Hrun. run_inv; close_invariant. Qed.

Lemma list_invariant st r st' :
  CRUD.list st = (Ret r, st') → envelope_invariant r.
Proof. unfold CRUD.list. intros Hrun. enter_operation Hrun. run_inv; close_invariant. Qed.

Lemma get_invariant id decrypt st r st' :
  CRUD.get id decrypt st = (Ret r, st') → envelope_invariant r.
Proof. unfold CRUD.get. intros Hrun. enter_operation Hrun. run_inv; close_invariant. Qed.

Lemma create_invariant payload st r st' :
  CRUD.create payload st = (Ret r, st') → envelope_invariant r.
Proof. unfold CRUD.create. intros Hrun. enter_operation Hrun. run_inv; close_invariant. Qed.

Lemma update_invariant payload st r st' :
  CRUD.update payload st = (Ret r, st') → envelope_invariant r.
Proof. unfold CRUD.update. intros Hrun. enter_operation Hrun. run_inv; close_invariant. Qed.

Lemma delete_invariant id st r st' :
  CRUD.delete id st = (Ret r, st') → envelope_invariant r.
Proof. unfold CRUD.delete. intros Hrun. enter_operation Hrun. run_inv; close_invariant. Qed.

Lemma handler_invariant payload operation st r st' :
  CRUD.handler payload operation st = (Ret r, st') → envelope_invariant r.
Proof.
  unfold CRUD.handler. intros Hrun.
  apply bind_Ret in Hrun as (? & ? & [= <- <-] & Hrun).
  apply bind_Ret in Hrun as ([] & ? & [-> Hchk]%check_supported_op_cases & Hrun).
  destruct Hchk as [[? [= -> ->]]|[? [= -> ->]]]; cbn in Hrun.
  - run_inv;
      eauto using list_invariant, get_invariant, create_invariant,
        update_invariant, delete_invariant, query_invariant,
        untouched_invariant, untouched_new.
  - run_inv. by apply report_invariant.
Qed.

(** C9. Every response envelope that an operation or the dispatcher
    returns has status 'success' or 'error'; with status 'error' its data
    is None, and with status 'success' its error_type, error_code and
    error_message are all None. *)
Theorem envelope_invariant_holds (c : call) st r st' :
  invoke c st = (Ret r, st') → envelope_invariant r.
Proof.
  destruct c; unfold invoke; intros ?;
    eauto using list_invariant, get_invariant, create_invariant,
      update_invariant, delete_invariant, query_invariant, handler_invariant.
Qed.

End envelope.

(** ** The allow-list *)

Section allow_list.
Context `{Platform}.

Ltac reject Hop :=
  erewrite bind_run by apply new_response_run;
  erewrite bind_run by (apply check_supported_op_false, Hop);
  cbn; eexists; split; [reflexivity|done].

(** C5 (amended). A call whose operation name, lower-cased first when it
    goes through the dispatcher, is not in the allow-list returns an
    UnsupportedOperation error envelope and leaves the state as it was:
    no store request is issued. *)
Theorem unsupported_operation_rejected (c : call) st :
  checked_operation c ∉ supported_ops (self st) →
  ∃ r, invoke c st = (Ret r, st) ∧ is_error "UnsupportedOperation" r.
Proof.
  intros Hop.
  destruct c; cbn in Hop; unfold invoke;
    [unfold CRUD.query|unfold CRUD.list|unfold CRUD.get|unfold CRUD.create
    |unfold CRUD.update|unfold CRUD.delete|unfold CRUD.handler];
    reject Hop.
Qed.

(** ** Errors of [get] *)

(** C3 (amended). When get is in the allow-list: a None id yields an
    IDRequired error envelope without any store request; and for any
    other id, when the strongly consistent point read succeeds and finds
    no item, the envelope is a NotFound error. *)
Theorem get_reports_missing_id_and_item st id decrypt :
  "get" ∈ supported_ops (self st) →
  (id = VNone →
   ∃ r, CRUD.get id decrypt st = (Ret r, st) ∧ is_error "IDRequired" r) ∧
  (id ≠ VNone →
   ∀ md st', ddb_request (GetItem id true) st = (inr (Raw (BodyItem None) md), st') →
   ∃ r, CRUD.get id decrypt st = (Ret r, st') ∧ is_error "NotFound" r).
Proof.
  intros Hop. split.
  - intros ->. unfold CRUD.get.
    erewrite bind_run by apply new_response_run.
    erewrite bind_run by (by apply check_supported_op_true).
    cbn. eexists. split; [reflexivity|done].
  - intros Hid md st' Hrq. unfold CRUD.get.
    erewrite bind_run by apply new_response_run.
    erewrite bind_run by (by apply check_supported_op_true).
    assert (CRUD._call_ddb_method (GetItem id true)
              (new_CRUDResponse (_debug (self st))) st
            = (Ret (set_raw_response (new_CRUDResponse (_debug (self st)))
                      (Raw (BodyItem None) md)), st')) as Hcall.
    { unfold CRUD._call_ddb_method. by rewrite Hrq. }
    destruct id; try done; cbn;
      (erewrite bind_run by (erewrite bind_run by apply Hcall; reflexivity));
      cbn; eexists; (split; [reflexivity|done]).
Qed.

End allow_list.

(** ** Query strings *)

Lemma split_on_nonempty c s : split_on c s ≠ [].
Proof. destruct s as [|a s]; cbn; [done|]. by repeat case_match. Qed.

Lemma split_on_length c s : length (split_on c s) = S (occurrences c s).
Proof.
  induction s as [|a s IH]; cbn; [done|].
  destruct (Ascii.eqb a c); cbn; [by rewrite IH|].
  destruct (split_on c s); cbn in *; done.
Qed.

Lemma contains_char_occurrences c s :
  contains_char c s = false ↔ occurrences c s = 0.
Proof.
  induction s as [|a s IH]; cbn; [done|].
  destruct (Ascii.eqb a c); cbn; [split; [done|lia]|done].
Qed.

Lemma split_on_one c s :
  contains_char c s = true → (occurrences c s ≤ 1)%nat →
  ∃ val, split_on c s = [hd EmptyString (split_on c s); val].
Proof.
  intros Hc Hn.
  assert (occurrences c s = 1) as Hone.
  { destruct (occurrences c s) as [|[|n]] eqn:Ho; [|done|lia].
    apply contains_char_occurrences in Ho. congruence. }
  pose proof (split_on_length c s) as Hlen. rewrite Hone in Hlen.
  destruct (split_on c s) as [|key [|val [|]]]; try done. by exists val.
Qed.


(** ** The steps of the operations *)

Lemma advances_refl st : advances st st.
Proof. by repeat split. Qed.

Lemma advances_trans st1 st2 st3 :
  advances st1 st2 → advances st2 st3 → advances st1 st3.
Proof.
  unfold advances. intros (-> & -> & -> & -> & ? & ? & ?) (-> & -> & -> & -> & ? & ? & ?).
  repeat split; lia.
Qed.

Lemma prepare_fields r :
  status (prepare r) = status r ∧ data (prepare r) = data r ∧
  error_type (prepare r) = error_type r.
Proof. unfold prepare. by repeat case_match. Qed.

Section steps.
Context `{Platform}.

Lemma check_uuid st :
  Tokens.check (VStr "<uuid>") st = (Ret (VStr (uuid4 (uuids st))), next_uuid st).
Proof. reflexivity. Qed.

Lemma check_timestamp st :
  Tokens.check (VStr "<timestamp>") st = (Ret (VInt (time_ms (ticks st))), next_tick st).
Proof. reflexivity. Qed.

Lemma check_advances token st v st' :
  Tokens.check token st = (Ret v, st') → advances st st'.
Proof.
  unfold Tokens.check, Tokens._get_uuid, Tokens._get_timestamp. intros Hrun.
  destruct token; try done.
  repeat case_match; run_inv; simplify_eq;
    try apply advances_refl; unfold advances; cbn; repeat split; lia.
Qed.

(** [_handle_defaults]: every missing key gets the value of its default,
    and the keys of the item are left alone. *)
Lemma handle_defaults_loop_inv missing it st it' st' :
  NoDup missing.*1 →
  CRUD._handle_defaults_loop missing it st = (Ret it', st') →
  advances st st' ∧
  (∀ k, k ∉ missing.*1 → it' !! k = it !! k) ∧
  (∀ k token, (k, token) ∈ missing →
     ∃ st1 st2 v, advances st st1 ∧ Tokens.check token st1 = (Ret v, st2) ∧
                  advances st2 st' ∧ it' !! k = Some v).
Proof.
  revert it st. induction missing as [|[k0 token0] missing IH]; intros it st Hnd Hrun.
  - cbn in Hrun. run_inv. split; [apply advances_refl|]. split; [done|].
    intros ?? []%elem_of_nil.
  - cbn in Hrun. apply bind_Ret in Hrun as (v0 & sta & Hcheck & Hrun).
    apply NoDup_cons in Hnd as [Hk0 Hnd].
    destruct (IH _ _ Hnd Hrun) as (Hadv & Hother & Hmissing).
    pose proof (check_advances _ _ _ _ Hcheck) as Hadv0.
    split; [by eapply advances_trans|]. split.
    + intros k Hk. cbn in Hk. apply not_elem_of_cons in Hk as [? ?].
      rewrite Hother by done. by rewrite lookup_insert_ne.
    + intros k token [[= -> ->]|Hin]%elem_of_cons.
      * exists st, sta, v0. split; [apply advances_refl|]. split; [done|].
        split; [done|]. rewrite Hother by done. by rewrite lookup_insert_eq.
      * destruct (Hmissing _ _ Hin) as (st1 & st2 & v & ? & ? & ? & ?).
        exists st1, st2, v. split; [by eapply advances_trans|]. done.
Qed.

Lemma handle_defaults_inv it response st it' st' :
  CRUD._handle_defaults it response st = (Ret it', st') →
  advances st st' ∧
  (∀ k v, it !! k = Some v → it' !! k = Some v) ∧
  (∀ k token, it !! k = None → defaults (self st) !! k = Some token →
     ∃ st1 st2 v, advances st st1 ∧ Tokens.check token st1 = (Ret v, st2) ∧
                  advances st2 st' ∧ it' !! k = Some v).
Proof.
  unfold CRUD._handle_defaults. intros Hrun.
  apply bind_Ret in Hrun as (dflt & ? & [= <- <-] & Hrun).
  apply handle_defaults_loop_inv in Hrun as (Hadv & Hother & Hmissing);
    [|apply NoDup_fst_map_to_list].
  split; [done|]. split.
  - intros k v Hk. rewrite Hother; [done|].
    intros ((k' & token) & -> & Hin%elem_of_map_to_list)%list_elem_of_fmap.
    cbn in Hk. apply lookup_difference_Some in Hin as [_ ?]. congruence.
  - intros k token Hk Hd. apply Hmissing.
    apply elem_of_map_to_list. by apply lookup_difference_Some.
Qed.

(** [_encrypt] and [_decrypt] leave the other attributes alone. *)
Lemma encrypt_loop_other attrs it st it' st' k :
  k ∉ attrs.*1 →
  CRUD._encrypt_loop attrs it st = (Ret it', st') →
  it' !! k = it !! k.
Proof.
  revert it st. induction attrs as [|[a key] attrs IH]; intros it st Hk Hrun.
  - cbn in Hrun. by run_inv.
  - cbn in Hk. apply not_elem_of_cons in Hk as [? ?].
    cbn in Hrun. destruct (it !! a); [|by eauto].
    apply bind_Ret in Hrun as (blob & st1 & _ & Hrun).
    erewrite IH by done. by rewrite lookup_insert_ne.
Qed.

Lemma kms_encrypt_call_advances key v st blob st' :
  CRUD.kms_encrypt_call key v st = (Ret blob, st') → advances st st'.
Proof.
  unfold CRUD.kms_encrypt_call. intros Hrun. destruct v; try done.
  simplify_eq. unfold advances; cbn. repeat split; lia.
Qed.

Lemma kms_decrypt_call_advances v st p st' :
  CRUD.kms_decrypt_call v st = (Ret p, st') → advances st st'.
Proof.
  unfold CRUD.kms_decrypt_call. intros Hrun. destruct v; try done.
  destruct (b64decode s); [|done].
  simplify_eq. unfold advances; cbn. repeat split; lia.
Qed.

Lemma encrypt_loop_advances attrs it st it' st' :
  CRUD._encrypt_loop attrs it st = (Ret it', st') → advances st st'.
Proof.
  revert it st. induction attrs as [|[a key] attrs IH]; intros it st Hrun.
  - cbn in Hrun. run_inv. apply advances_refl.
  - cbn in Hrun. destruct (it !! a); [|by eauto].
    apply bind_Ret in Hrun as (blob & st1 & ?%kms_encrypt_call_advances & Hrun).
    eapply advances_trans; eauto.
Qed.

Lemma decrypt_loop_other attrs it st it' st' k :
  k ∉ attrs.*1 →
  CRUD._decrypt_loop attrs it st = (Ret it', st') →
  it' !! k = it !! k.
Proof.
  revert it st. induction attrs as [|[a key] attrs IH]; intros it st Hk Hrun.
  - cbn in Hrun. by run_inv.
  - cbn in Hk. apply not_elem_of_cons in Hk as [? ?].
    cbn in Hrun. destruct (it !! a); [|by eauto].
    apply bind_Ret in Hrun as (blob & st1 & _ & Hrun).
    erewrite IH by done. by rewrite lookup_insert_ne.
Qed.

Lemma decrypt_loop_advances attrs it st it' st' :
  CRUD._decrypt_loop attrs it st = (Ret it', st') → advances st st'.
Proof.
  revert it st. induction attrs as [|[a key] attrs IH]; intros it st Hrun.
  - cbn in Hrun. run_inv. apply advances_refl.
  - cbn in Hrun. destruct (it !! a); [|by eauto].
    apply bind_Ret in Hrun as (blob & st1 & ?%kms_decrypt_call_advances & Hrun).
    eapply advances_trans; eauto.
Qed.

Lemma encrypt_inv it st it' st' :
  CRUD._encrypt it st = (Ret it', st') →
  CRUD._encrypt_loop (encrypted_attributes (self st)) it st = (Ret it', st').
Proof. unfold CRUD._encrypt. intros Hrun. by run_inv. Qed.

Lemma decrypt_inv it st it' st' :
  CRUD._decrypt it st = (Ret it', st') →
  CRUD._decrypt_loop (encrypted_attributes (self st)) it st = (Ret it', st').
Proof. unfold CRUD._decrypt. intros Hrun. by run_inv. Qed.

(** A store request that succeeds. *)
Lemma call_ddb_method_success rq debug st r st' :
  CRUD._call_ddb_method rq (new_CRUDResponse debug) st = (Ret r, st') →
  status r = "success" →
  ∃ b md, ddb_request rq st = (inr (Raw b md), st') ∧
          r = set_raw_response (new_CRUDResponse debug) (Raw b md).
Proof.
  unfold CRUD._call_ddb_method. intros Hrun Hs.
  destruct (ddb_request rq st) as [[[]|[b md]] ?]; simplify_eq; try done.
  by exists b, md.
Qed.

Lemma as_key_Some v k : as_key v = Some k → v = VStr k ∧ k ≠ EmptyString.
Proof. destruct v as [| | | | |[|a s]| | |]; try done. by intros [= <-]. Qed.

Lemma ddb_execute_refused rq tbl f tbl' :
  ddb_execute rq tbl = (inl f, tbl') → tbl' = tbl.
Proof.
  unfold ddb_execute. intros Hex.
  destruct rq; repeat case_match; by simplify_eq.
Qed.

Lemma ddb_execute_put it tbl b tbl' :
  ddb_execute (PutItem it) tbl = (inr b, tbl') →
  ∃ k, it !! "id" = Some (VStr k) ∧ k ≠ EmptyString ∧
       tbl' = <[k := as_stored <$> it]> tbl.
Proof.
  unfold ddb_execute. intros Hex.
  destruct (serialised _ _); [done|].
  destruct (it !! "id") as [v|] eqn:Hid; [|done]. cbn in Hex.
  destruct (as_key v) as [k|] eqn:Hk; [|done].
  apply as_key_Some in Hk as [-> ?]. simplify_eq. by exists k.
Qed.

Lemma ddb_execute_get key c tbl b tbl' :
  ddb_execute (GetItem key c) tbl = (inr b, tbl') →
  ∃ k, key = VStr k ∧ k ≠ EmptyString ∧ b = BodyItem (tbl !! k) ∧ tbl' = tbl.
Proof.
  unfold ddb_execute. intros Hex.
  destruct (serialised _ _); [done|].
  destruct (as_key key) as [k|] eqn:Hk; [|done].
  apply as_key_Some in Hk as [-> ?]. simplify_eq. by exists k.
Qed.

Lemma ddb_request_answered rq st b md st' :
  ddb_request rq st = (inr (Raw b md), st') →
  ddb_execute rq (table st) = (inr b, table st') ∧
  self st' = self st ∧ uuids st' = uuids st ∧ ticks st' = ticks st ∧
  kms_calls st' = kms_calls st.
Proof.
  unfold ddb_request. intros Hrq.
  destruct (faults st) as [|[f|] rest]; try done;
    destruct (ddb_execute rq (table st)) as [[?|?] ?]; by simplify_eq.
Qed.

Lemma put_item_success it st b md st' :
  ddb_request (PutItem it) st = (inr (Raw b md), st') →
  ∃ k, it !! "id" = Some (VStr k) ∧
       table st' = <[k := as_stored <$> it]> (table st) ∧
       self st' = self st ∧ uuids st' = uuids st ∧ ticks st' = ticks st ∧
       kms_calls st' = kms_calls st.
Proof.
  intros (Hex & ? & ? & ? & ?)%ddb_request_answered.
  apply ddb_execute_put in Hex as (k & ? & _ & ?). by exists k.
Qed.

Lemma put_item_key it st b md st' :
  ddb_request (PutItem it) st = (inr (Raw b md), st') →
  it !! "id" ≠ Some (VStr EmptyString).
Proof.
  intros (Hex & _)%ddb_request_answered.
  apply ddb_execute_put in Hex as (k & Hid & ? & _). rewrite Hid. by intros [= ->].
Qed.

Lemma get_item_success id c st b md st' :
  ddb_request (GetItem id c) st = (inr (Raw b md), st') →
  ∃ k, id = VStr k ∧ b = BodyItem (table st !! k) ∧
       table st' = table st ∧ self st' = self st ∧ uuids st' = uuids st ∧
       ticks st' = ticks st ∧ kms_calls st' = kms_calls st.
Proof.
  intros (Hex & ? & ? & ? & ?)%ddb_request_answered.
  apply ddb_execute_get in Hex as (k & ? & _ & ? & ?). by exists k.
Qed.

(** A store request that fails. *)
Lemma call_ddb_method_refused rq debug st f st' :
  ddb_request rq st = (inl f, st') →
  ∃ r, CRUD._call_ddb_method rq (new_CRUDResponse debug) st = (Ret r, st') ∧
       fault_reported f r ∧ raw_response r = None ∧ resp_debug r = debug.
Proof.
  intros Hrq. unfold CRUD._call_ddb_method. rewrite Hrq.
  destruct f; eexists; (split; [reflexivity|]); by repeat split.
Qed.

(** What a successful [create] went through. *)
Lemma create_success it st r st' :
  CRUD.create (VDict it) st = (Ret r, st') → status r = "success" →
  ∃ it1 st1 created_at it2 st2 b md,
    CRUD._handle_defaults it (new_CRUDResponse (_debug (self st))) st = (Ret it1, st1) ∧
    it1 !! "created_at" = Some created_at ∧
    CRUD._encrypt (<["modified_at" := created_at]> it1) st1 = (Ret it2, st2) ∧
    ddb_request (PutItem it2) st2 = (inr (Raw b md), st') ∧
    data r = VDict it2.
Proof.
  unfold CRUD.create. intros Hrun Hs.
  apply bind_Ret in Hrun as (? & ? & [= <- <-] & Hrun).
  apply bind_Ret in Hrun as ([] & ? & [-> Hchk]%check_supported_op_cases & Hrun).
  apply bind_Ret in Hrun as (r1 & ? & Hbody & Hrun).
  unfold ret in Hrun. injection Hrun as <- <-.
  destruct (prepare_fields r1) as (Hps & Hpd & _). rewrite Hps in Hs. rewrite Hpd.
  destruct Hchk as [[? [= -> ->]]|[? [= -> ->]]]; [|by run_inv].
  apply bind_Ret in Hbody as (it1 & st1 & Hdef & Hbody).
  destruct (it1 !! "created_at") as [created_at|] eqn:Hc; [|done].
  apply bind_Ret in Hbody as (it2 & st2 & Henc & Hbody).
  apply bind_Ret in Hbody as (r2 & st3 & Hcall & Hbody).
  destruct (status r2 =? "success") eqn:Hs2; run_inv; [|by rewrite Hs in Hs2].
  apply String.eqb_eq in Hs2.
  apply call_ddb_method_success in Hcall as (b & md & Hrq & ->); [|done].
  by exists it1, st1, created_at, it2, st2, b, md.
Qed.

(** What a successful [update] went through. *)
Lemma update_success it st r st' :
  CRUD.update (VDict it) st = (Ret r, st') → status r = "success" →
  ∃ it2 st2 b md,
    CRUD._encrypt (<["modified_at" := VInt (time_ms (ticks st))]> it) (next_tick st)
    = (Ret it2, st2) ∧
    ddb_request (PutItem it2) st2 = (inr (Raw b md), st') ∧
    data r = VDict it2.
Proof.
  unfold CRUD.update. intros Hrun Hs.
  apply bind_Ret in Hrun as (? & ? & [= <- <-] & Hrun).
  apply bind_Ret in Hrun as ([] & ? & [-> Hchk]%check_supported_op_cases & Hrun).
  apply bind_Ret in Hrun as (r1 & ? & Hbody & Hrun).
  unfold ret in Hrun. injection Hrun as <- <-.
  destruct (prepare_fields r1) as (Hps & Hpd & _). rewrite Hps in Hs. rewrite Hpd.
  destruct Hchk as [[? [= -> ->]]|[? [= -> ->]]]; [|by run_inv].
  apply bind_Ret in Hbody as (now & st1 & Hnow & Hbody).
  rewrite check_timestamp in Hnow. injection Hnow as <- <-.
  apply bind_Ret in Hbody as (it2 & st2 & Henc & Hbody).
  apply bind_Ret in Hbody as (r2 & st3 & Hcall & Hbody).
  destruct (status r2 =? "success") eqn:Hs2; run_inv; [|by rewrite Hs in Hs2].
  apply String.eqb_eq in Hs2.
  apply call_ddb_method_success in Hcall as (b & md & Hrq & ->); [|done].
  by exists it2, st2, b, md.
Qed.

End steps.

(** ** Defaults: identifiers and timestamps *)

Lemma init_defaults kw t c :
  CRUD.__init__ kw t = Ret c →
  defaults c !! "id" = Some (VStr "<uuid>") ∧
  defaults c !! "created_at" = Some (VStr "<timestamp>").
Proof.
  unfold CRUD.__init__. destruct (CRUD._analyze_table t); [|done].
  intros [= <-]. cbn. split; [|by rewrite lookup_insert_eq].
  rewrite lookup_insert_ne by done. by rewrite lookup_insert_eq.
Qed.

Section defaults.
Context `{Platform}.

(** The identifier that [_handle_defaults] gives an item without one. *)
Lemma handle_defaults_id it response st it' st' :
  defaults (self st) !! "id" = Some (VStr "<uuid>") →
  it !! "id" = None →
  CRUD._handle_defaults it response st = (Ret it', st') →
  ∃ n, (uuids st ≤ n < uuids st')%nat ∧ it' !! "id" = Some (VStr (uuid4 n)).
Proof.
  intros Hd Hid (_ & _ & Hmissing)%handle_defaults_inv.
  destruct (Hmissing _ _ Hid Hd) as (st1 & st2 & v & Ha1 & Hcheck & Ha2 & Hv).
  rewrite check_uuid in Hcheck. injection Hcheck as <- <-.
  exists (uuids st1). split; [|done].
  destruct Ha1 as (_ & _ & _ & _ & ? & _), Ha2 as (_ & _ & _ & _ & ? & _).
  cbn in *. lia.
Qed.


(** C1 (amended). For a handler built by the constructor that encrypts
    none of id, created_at and modified_at, and an item without id:
    whenever create returns a success envelope, its data is the item with
    a freshly generated identifier under id (one the generator had not
    handed out before, hence unlike all earlier ones if the generator
    never repeats itself) and with modified_at equal to created_at.  When
    create is not in the allow-list, and when the store refuses the write
    that create sends, create returns an error envelope whose data is
    None. *)
Theorem create_fills_missing_id st it :
  initialised (self st) →
  it !! "id" = None →
  "id" ∉ encrypted_names (self st) →
  "created_at" ∉ encrypted_names (self st) →
  "modified_at" ∉ encrypted_names (self st) →
  (∀ r st',
     CRUD.create (VDict it) st = (Ret r, st') → status r = "success" →
     ∃ d n, data r = VDict d ∧
       (uuids st ≤ n < uuids st')%nat ∧ d !! "id" = Some (VStr (uuid4 n)) ∧
       (Inj (=) (=) uuid4 → ∀ m, (m < uuids st)%nat → uuid4 m ≠ uuid4 n) ∧
       is_Some (d !! "created_at") ∧ d !! "modified_at" = d !! "created_at" ∧
       (∀ k v, it !! k = Some v → k ≠ "modified_at" →
               k ∉ encrypted_names (self st) → d !! k = Some v)) ∧
  ("create" ∉ supported_ops (self st) →
   ∃ r, CRUD.create (VDict it) st = (Ret r, st) ∧
        is_error "UnsupportedOperation" r) ∧
  ("create" ∈ supported_ops (self st) →
   ∀ it2 st2 f st',
     create_sends it st it2 st2 →
     ddb_request (PutItem it2) st2 = (inl f, st') →
     ∃ r, CRUD.create (VDict it) st = (Ret r, st') ∧ fault_reported f r).
Proof.
  intros (kw & t & [Hdid _]%init_defaults) Hid Heid Hec Hem. split_and!.
  - intros r st' Hrun Hs.
    destruct (create_success _ _ _ _ Hrun Hs)
      as (it1 & st1 & created_at & it2 & st2 & b & md & Hdef & Hc & Henc & Hput & Hdata).
    destruct (handle_defaults_id _ _ _ _ _ Hdid Hid Hdef) as (n & Hn & Hn').
    pose proof (handle_defaults_inv _ _ _ _ _ Hdef) as ((Hself1 & _) & Hkeep & _).
    apply encrypt_inv in Henc. rewrite Hself1 in Henc.
    pose proof (encrypt_loop_advances _ _ _ _ _ Henc) as (_ & _ & _ & _ & Hu2 & _).
    apply put_item_success in Hput as (_ & _ & _ & _ & Hu3 & _).
    exists it2, n. split; [done|]. split; [lia|].
    assert (∀ k, k ∉ encrypted_names (self st) →
                 it2 !! k = <["modified_at" := created_at]> it1 !! k) as Hsame.
    { intros k Hk. by eapply encrypt_loop_other. }
    split; [by rewrite Hsame, lookup_insert_ne|].
    split; [intros Hinj m Hm Heq; apply Hinj in Heq; lia|].
    rewrite !Hsame by done. rewrite lookup_insert_eq, lookup_insert_ne, Hc by done.
    split; [done|]. split; [done|].
    intros k v Hk Hkm Hke. rewrite Hsame, lookup_insert_ne by done. by apply Hkeep.
  - intros Hop. unfold CRUD.create.
    erewrite bind_run by apply new_response_run.
    erewrite bind_run by (by apply check_supported_op_false).
    cbn. eexists. split; [reflexivity|done].
  - intros Hop it2 st2 f st' (it1 & st1 & created_at & Hdef & Hc & Henc) Hrq.
    destruct (call_ddb_method_refused (PutItem it2) (_debug (self st)) st2 f st' Hrq)
      as (r & Hcall & Hr & _).
    exists r. split; [|done]. unfold CRUD.create.
    erewrite bind_run by apply new_response_run.
    erewrite bind_run by (by apply check_supported_op_true). cbn beta iota.
    erewrite bind_run.
    2:{ erewrite bind_run by apply Hdef. rewrite Hc.
        erewrite bind_run by apply Henc.
        erewrite bind_run by apply Hcall.
        destruct Hr as (Hs & _). rewrite Hs. reflexivity. }
    unfold ret, prepare. destruct Hr as (-> & _). reflexivity.
Qed.

End defaults.

(** ** The defaults that the constructor sets *)

Section constructor.
Context `{Platform}.


(** ** Timestamps of update *)

(** C8 (amended). Whenever update returns a success envelope (and
    modified_at is not encrypted), the stored modified_at of the item is
    the timestamp read during the call; with a non-decreasing clock it is
    later than or equal to the value stored before, provided that value
    was itself an earlier reading of the clock. *)
Theorem update_stamps_modified_at st it r st' :
  (∀ m n, (m ≤ n)%nat → (time_ms m ≤ time_ms n)%Z) →
  "modified_at" ∉ encrypted_names (self st) →
  CRUD.update (VDict it) st = (Ret r, st') → status r = "success" →
  ∃ k d, data r = VDict d ∧ d !! "id" = Some (VStr k) ∧
    stored_attribute st' k "modified_at"
    = Some (stored_timestamp (time_ms (ticks st))) ∧
    clock_stamped st' k ∧
    (clock_stamped st k →
     ∀ old, stored_attribute st k "modified_at" = Some old →
            timestamp_le old (stored_timestamp (time_ms (ticks st)))).
Proof.
  intros Hmono Hem Hrun Hs.
  destruct (update_success _ _ _ _ Hrun Hs) as (it2 & st2 & b & md & Henc & Hput & Hdata).
  apply encrypt_inv in Henc. cbn [self next_tick] in Henc.
  pose proof (encrypt_loop_advances _ _ _ _ _ Henc) as (_ & Htbl & _ & _ & _ & Ht2 & _).
  pose proof (encrypt_loop_other _ _ _ _ _ _ Hem Henc) as Hmod.
  rewrite lookup_insert_eq in Hmod.
  apply put_item_success in Hput as (k & Hk & Htbl' & _ & _ & Ht3 & _).
  cbn in Ht2, Htbl.
  assert (stored_attribute st' k "modified_at"
          = Some (stored_timestamp (time_ms (ticks st)))) as Hstored.
  { unfold stored_attribute. rewrite Htbl', lookup_insert_eq. cbn.
    by rewrite lookup_fmap, Hmod. }
  exists k, it2. split; [done|]. split; [done|]. split; [done|]. split.
  - intros v Hv. rewrite Hstored in Hv. injection Hv as <-.
    exists (ticks st). split; [lia|done].
  - intros Hstamped old Hold. destruct (Hstamped _ Hold) as (m & Hm & ->).
    cbn. apply Hmono. lia.
Qed.

End constructor.

(** ** Encryption round trip *)

Lemma sequence_map_Ret {A} (mo : gmap string (outcome A)) (m : gmap string A) :
  sequence_map mo = Ret m → ∀ k, mo !! k = Ret <$> m !! k.
Proof.
  unfold sequence_map. revert m.
  apply (map_fold_weak_ind (λ r mo, ∀ m, r = Ret m → ∀ k, mo !! k = Ret <$> m !! k)).
  - intros m [= <-] k. by rewrite !lookup_empty.
  - intros i o mo' r Hi IH m Hr k.
    destruct o as [a|]; [|done]. destruct r as [m0|]; [|done].
    cbn in Hr. injection Hr as <-.
    destruct (decide (i = k)) as [->|].
    + by rewrite !lookup_insert_eq.
    + rewrite !lookup_insert_ne by done. by apply IH.
Qed.

Section round_trip.
Context `{Platform}.

Lemma replace_decimals_dict (m : item) v :
  CRUD._replace_decimals (VDict m) = Ret v →
  ∃ m', v = VDict m' ∧
        ∀ k, Ret <$> m' !! k = CRUD._replace_decimals <$> m !! k.
Proof.
  cbn. destruct (sequence_map _) as [m'|] eqn:Hseq; [|done].
  intros [= <-]. exists m'. split; [done|]. intros k.
  apply sequence_map_Ret with (k := k) in Hseq. by rewrite lookup_fmap in Hseq.
Qed.

Lemma wrapped_first n v' p i key blob :
  kms_encrypt i key p = Ret blob →
  wrapped n (VStr (b64encode blob)) v' →
  wrapped (S n) (VStr p) v'.
Proof.
  intros Henc Hw.
  remember (VStr (b64encode blob)) as v0 eqn:Hv0.
  induction Hw as [v|n v q j key' blob' Hw IH Henc']; subst.
  - eapply wrapped_more; [apply wrapped_none|done].
  - eapply wrapped_more; [by apply IH|done].
Qed.

Lemma wrapped_string n v v' : wrapped (S n) v v' → ∃ p, v = VStr p.
Proof.
  intros Hw. remember (S n) as n' eqn:Hn. revert n Hn.
  induction Hw as [|n' v q j key blob Hw IH Henc]; intros n Hn; [done|].
  injection Hn as ->. destruct n as [|n]; [|by eapply IH].
  inversion Hw; subst. by eexists.
Qed.

Lemma rounds_cons a b key attrs :
  rounds a ((b, key) :: attrs)
  = if decide (b = a) then S (rounds a attrs) else rounds a attrs.
Proof. unfold rounds. rewrite filter_cons. cbn. by case_decide. Qed.

Lemma rounds_positive a attrs : a ∈ attrs.*1 → (0 < rounds a attrs)%nat.
Proof.
  induction attrs as [|[b key] attrs IH]; [by intros ?%elem_of_nil|].
  rewrite fmap_cons, rounds_cons.
  intros [Hb|?]%elem_of_cons; case_decide; cbn in *; try done; try lia; auto.
Qed.

(** After [_encrypt], a present attribute is wrapped once for each time
    it is configured. *)
Lemma encrypt_loop_wrapped attrs it st it' st' a v :
  CRUD._encrypt_loop attrs it st = (Ret it', st') →
  it !! a = Some v →
  ∃ v', it' !! a = Some v' ∧ wrapped (rounds a attrs) v v'.
Proof.
  revert it st v. induction attrs as [|[b key] attrs IH]; intros it st v Hrun Ha.
  - cbn in Hrun. run_inv. exists v. split; [done|]. apply wrapped_none.
  - cbn in Hrun. rewrite rounds_cons. case_decide as Hb.
    + subst b. rewrite Ha in Hrun.
      apply bind_Ret in Hrun as (blob & st1 & Hcall & Hrun).
      unfold CRUD.kms_encrypt_call in Hcall. destruct v as [| | | | |p| | |]; try done.
      injection Hcall as Hcall <-.
      destruct (IH _ _ (VStr (b64encode blob)) Hrun) as (v' & Hv' & Hw);
        [by rewrite lookup_insert_eq|].
      exists v'. split; [done|]. by eapply wrapped_first.
    + destruct (it !! b); [|by eauto].
      apply bind_Ret in Hrun as (blob & st1 & _ & Hrun).
      eapply IH; [done|]. by rewrite lookup_insert_ne.
Qed.

(** [_decrypt] unwraps as many rounds, given that decoding undoes
    encoding and decryption undoes encryption. *)
Lemma decrypt_loop_unwrapped `{!Base64Law} attrs it st it' st' a v v' :
  (∀ i key p blob, kms_encrypt i key p = Ret blob → ∀ j, kms_decrypt j blob = Ret p) →
  CRUD._decrypt_loop attrs it st = (Ret it', st') →
  it !! a = Some v' → wrapped (rounds a attrs) v v' →
  it' !! a = Some v.
Proof.
  intros Hkms. revert it st v'.
  induction attrs as [|[b key] attrs IH]; intros it st v' Hrun Ha Hw.
  - cbn in Hrun. run_inv. by inversion Hw; subst.
  - cbn in Hrun. rewrite rounds_cons in Hw. case_decide as Hb.
    + subst b. rewrite Ha in Hrun.
      apply bind_Ret in Hrun as (plain & st1 & Hcall & Hrun).
      inversion Hw as [|n v0 p i key' blob Hw' Henc]; subst.
      unfold CRUD.kms_decrypt_call in Hcall.
      rewrite b64decode_encode in Hcall. injection Hcall as Hcall <-.
      rewrite (Hkms _ _ _ _ Henc) in Hcall. injection Hcall as <-.
      eapply IH; [done| |done]. by rewrite lookup_insert_eq.
    + destruct (it !! b); [|by eauto].
      apply bind_Ret in Hrun as (plain & st1 & _ & Hrun).
      eapply IH; [done| |done]. by rewrite lookup_insert_ne.
Qed.

(** What a successful [get] went through. *)
Lemma get_success id decrypt st r st' :
  CRUD.get id decrypt st = (Ret r, st') → status r = "success" →
  ∃ k stored st1 it,
    id = VStr k ∧ table st !! k = Some stored ∧ self st1 = self st ∧
    (if decrypt then CRUD._decrypt stored st1 else ret stored st1) = (Ret it, st') ∧
    CRUD._replace_decimals (VDict it) = Ret (data r).
Proof.
  unfold CRUD.get. intros Hrun Hs.
  apply bind_Ret in Hrun as (? & ? & [= <- <-] & Hrun).
  apply bind_Ret in Hrun as ([] & ? & [-> Hchk]%check_supported_op_cases & Hrun).
  apply bind_Ret in Hrun as (r1 & ? & Hbody & Hrun).
  unfold ret in Hrun. injection Hrun as <- <-.
  destruct (prepare_fields r1) as (Hps & Hpd & _). rewrite Hps in Hs. rewrite Hpd.
  destruct Hchk as [[? [= -> ->]]|[? [= -> ->]]]; [|by run_inv].
  destruct id; try (by run_inv);
    apply bind_Ret in Hbody as (r2 & st1 & Hcall & Hbody);
    (destruct (status r2 =? "success") eqn:Hs2; [|run_inv; by rewrite Hs in Hs2]);
    apply String.eqb_eq in Hs2;
    (apply call_ddb_method_success in Hcall as (bd & md & Hrq & ->); [|done]);
    apply get_item_success in Hrq as (k & [= ->] & -> & _ & Hself & _).
  cbn in Hbody. destruct (table st !! k) as [stored|] eqn:Hstored; [|by run_inv].
  apply bind_Ret in Hbody as (it & st2 & Hdec & Hbody). run_inv.
  all: by eexists _, _, _, _.
Qed.

(** C7 (amended). Let an item contain an attribute, other than
    modified_at, that is configured for encryption.  If create returns a
    success envelope for the item and get, called with the id of the
    created item and with decrypt enabled, returns a success envelope as
    well, then the data of the latter holds the original value of the
    attribute, provided that the decrypt of the key-management service
    inverts its encrypt. *)
Theorem encrypted_attribute_round_trip `{!Base64Law} st it a v r1 st1 d1 id r2 st2 :
  (∀ i key p blob, kms_encrypt i key p = Ret blob → ∀ j, kms_decrypt j blob = Ret p) →
  a ∈ encrypted_names (self st) → a ≠ "modified_at" →
  it !! a = Some v →
  CRUD.create (VDict it) st = (Ret r1, st1) → status r1 = "success" →
  data r1 = VDict d1 → d1 !! "id" = Some id →
  CRUD.get id true st1 = (Ret r2, st2) → status r2 = "success" →
  ∃ d2, data r2 = VDict d2 ∧ d2 !! a = Some v.
Proof.
  intros Hkms Ha Hne Hv Hcreate Hs1 Hd1 Hid Hget Hs2.
  destruct (create_success _ _ _ _ Hcreate Hs1)
    as (it1 & sta & created_at & it2 & stb & b & md & Hdef & Hc & Henc & Hput & Hdata).
  rewrite Hdata in Hd1. injection Hd1 as <-.
  pose proof (handle_defaults_inv _ _ _ _ _ Hdef) as ((Hselfa & _) & Hkeep & _).
  apply encrypt_inv in Henc. rewrite Hselfa in Henc.
  destruct (encrypt_loop_wrapped _ _ _ _ _ a v Henc) as (v' & Hv' & Hw).
  { rewrite lookup_insert_ne by done. by apply Hkeep. }
  pose proof (encrypt_loop_advances _ _ _ _ _ Henc) as (Hselfb & _).
  apply put_item_success in Hput as (k & Hk & Htbl & Hself1 & _).
  rewrite Hk in Hid. injection Hid as <-.
  destruct (get_success _ _ _ _ _ Hget Hs2)
    as (k' & stored & stc & it4 & [= <-] & Hstored & Hselfc & Hdec & Hrepl).
  rewrite Htbl, lookup_insert_eq in Hstored. injection Hstored as <-.
  apply decrypt_inv in Hdec. rewrite Hselfc, Hself1, Hselfb, Hselfa in Hdec.
  pose proof (rounds_positive _ _ Ha) as Hpos.
  destruct (rounds a (encrypted_attributes (self st))) as [|n] eqn:Hn; [lia|].
  destruct (wrapped_string _ _ _ Hw) as (p & ->).
  assert (∃ q, v' = VStr q) as (q & ->) by (inversion Hw; by eexists).
  assert (it4 !! a = Some (VStr p)) as Hplain.
  { eapply decrypt_loop_unwrapped; [done|done| |by rewrite Hn].
    by rewrite lookup_fmap, Hv'. }
  apply replace_decimals_dict in Hrepl as (d2 & Hd2 & Hlook).
  exists d2. split; [done|].
  specialize (Hlook a). rewrite Hplain in Hlook. cbn in Hlook.
  destruct (d2 !! a); by simplify_eq/=.
Qed.

End round_trip.

(** ** Decimal-to-native conversion *)

Lemma foldr_size_elem (l : list value) x :
  x ∈ l → (value_size x ≤ foldr (λ x n, value_size x + n) 0 l)%nat.
Proof.
  induction l as [|y l IH]; [by intros ?%elem_of_nil|].
  intros [->|?%IH]%elem_of_cons; cbn; lia.
Qed.

Lemma map_fold_size_elem (m : gmap string value) k x :
  m !! k = Some x → (value_size x ≤ map_fold (λ _ x n, value_size x + n) 0 m)%nat.
Proof.
  revert k x.
  apply (map_fold_weak_ind (λ r m, ∀ k x, m !! k = Some x → (value_size x ≤ r)%nat)).
  - intros k x. by rewrite lookup_empty.
  - intros i y m' r Hi IH k x. destruct (decide (i = k)) as [->|].
    + rewrite lookup_insert_eq. intros [= ->]. lia.
    + rewrite lookup_insert_ne by done. intros ?%IH. lia.
Qed.

(** Induction on values, through lists, sets and dictionaries. *)
Lemma value_ind_nested (P : value → Prop) :
  P VNone → (∀ b, P (VBool b)) → (∀ n, P (VInt n)) → (∀ x, P (VFloat x)) →
  (∀ d, P (VDecimal d)) → (∀ s, P (VStr s)) →
  (∀ l, Forall P l → P (VList l)) →
  (∀ l, Forall P l → P (VSet l)) →
  (∀ m, map_Forall (λ _, P) m → P (VDict m)) →
  ∀ v, P v.
Proof.
  intros HNone HBool HInt HFloat HDec HStr HList HSet HDict v.
  remember (value_size v) as n eqn:Hn. revert v Hn.
  induction (lt_wf n) as [n _ IH]. intros v ->.
  destruct v as [| | | | | |l|l|m]; auto.
  - apply HList, Forall_forall. intros x Hx%foldr_size_elem.
    eapply IH; [|done]. cbn. lia.
  - apply HSet, Forall_forall. intros x Hx%foldr_size_elem.
    eapply IH; [|done]. cbn. lia.
  - apply HDict. intros k x Hx%map_fold_size_elem.
    eapply IH; [|done]. cbn. lia.
Qed.

Lemma sequence_list_fmap {A B} (f : A → outcome B) (g : A → B) (l : list A) :
  Forall (λ x, f x = Ret (g x)) l → sequence_list (f <$> l) = Ret (g <$> l).
Proof.
  unfold sequence_list. induction 1 as [|x l Hx _ IH]; [done|].
  cbn. by rewrite Hx, IH.
Qed.

Lemma sequence_map_fmap {A B} (f : A → outcome B) (g : A → B) (m : gmap string A) :
  map_Forall (λ _ x, f x = Ret (g x)) m → sequence_map (f <$> m) = Ret (g <$> m).
Proof.
  unfold sequence_map. rewrite map_fold_fmap.
  apply (map_fold_weak_ind
           (λ r m, map_Forall (λ _ x, f x = Ret (g x)) m → r = Ret (g <$> m))).
  - intros _. by rewrite fmap_empty.
  - intros i x m' r Hi IH [Hx Hm']%map_Forall_insert; [|done].
    cbn. rewrite Hx, IH by done. cbn. by rewrite fmap_insert.
Qed.

Lemma within_precision_dict (m : gmap string value) :
  within_precision (VDict m) = true →
  map_Forall (λ _ x, within_precision x = true) m.
Proof.
  cbn.
  apply (map_fold_weak_ind
           (λ r m, r = true → map_Forall (λ _ x, within_precision x = true) m)).
  - intros _. apply map_Forall_empty.
  - intros i x m' r Hi IH [Hx Hr]%andb_true_iff.
    apply map_Forall_insert; auto.
Qed.

Lemma abs_quot_div c p : (0 < p)%Z → Z.abs (c ÷ p) = (Z.abs c / p)%Z.
Proof.
  intros Hp. rewrite <- Z.quot_abs by lia. rewrite (Z.abs_eq p) by lia.
  apply Z.quot_div_nonneg; lia.
Qed.

Lemma abs_mod_zero c p :
  (0 < p)%Z → (Z.abs c mod p =? 0)%Z = (c mod p =? 0)%Z.
Proof.
  intros Hp.
  assert (Z.abs c mod p = 0 ↔ c mod p = 0)%Z as Hiff.
  { rewrite !Z.mod_divide by lia. apply Z.divide_abs_r. }
  destruct (Z.eqb_spec (Z.abs c mod p) 0) as [Hz|Hz];
    destruct (Z.eqb_spec (c mod p) 0) as [Hz'|Hz']; tauto.
Qed.

(** The test [obj % 1 == 0] on a decimal within the precision of the
    context. *)
Lemma decimal_mod_one_within d :
  (Z.abs (decimal_to_int d) <? 10 ^ context_prec)%Z = true →
  decimal_mod_one_is_zero d = Ret (decimal_is_whole d).
Proof.
  unfold decimal_mod_one_is_zero, decimal_divide_by_one, decimal_to_int,
    decimal_is_whole.
  destruct d as [c e]; cbn [dec_coeff dec_exp].
  destruct (Z.leb_spec 0 e) as [He|He]; cbn [orb].
  - rewrite Z.abs_mul, (Z.abs_eq (10 ^ e)) by (apply Z.pow_nonneg; lia).
    rewrite Z.div_1_r. intros ->. cbn. by rewrite Z.mod_1_r.
  - assert (0 < 10 ^ (- e))%Z as Hpos by (apply Z.pow_pos_nonneg; lia).
    rewrite abs_quot_div by done. intros ->. cbn.
    by rewrite abs_mod_zero.
Qed.

(** The test raises on a decimal outside the precision of the context. *)
Lemma decimal_mod_one_beyond d :
  (Z.abs (decimal_to_int d) <? 10 ^ context_prec)%Z = false →
  decimal_mod_one_is_zero d = Raise "InvalidOperation".
Proof.
  unfold decimal_mod_one_is_zero, decimal_divide_by_one, decimal_to_int.
  destruct d as [c e]; cbn [dec_coeff dec_exp].
  destruct (Z.leb_spec 0 e) as [He|He].
  - rewrite Z.abs_mul, (Z.abs_eq (10 ^ e)) by (apply Z.pow_nonneg; lia).
    rewrite Z.div_1_r. by intros ->.
  - assert (0 < 10 ^ (- e))%Z as Hpos by (apply Z.pow_pos_nonneg; lia).
    rewrite abs_quot_div by done. by intros ->.
Qed.

Section conversion.
Context `{Platform}.

(** Within the precision of the arithmetic context, [_replace_decimals]
    is the conversion that the specification describes. *)
Lemma replace_decimals_within_precision v :
  within_precision v = true → CRUD._replace_decimals v = Ret (native v).
Proof.
  induction v as [| | | |d| |l IH|l _|m IH] using value_ind_nested; try done.
  - cbn. intros Hd. rewrite decimal_mod_one_within by done. done.
  - cbn. intros Hl. rewrite (sequence_list_fmap _ native); [done|].
    rewrite forallb_forall in Hl. rewrite Forall_forall in IH |- *.
    intros x Hx. apply IH; [done|]. apply Hl. by apply list_elem_of_In.
  - intros Hm%within_precision_dict. cbn.
    rewrite (sequence_map_fmap _ native); [done|].
    intros k x Hx. apply (IH k x Hx). by apply (Hm k x).
Qed.

(** A decimal whose integer part needs more digits than the context has
    makes [_replace_decimals] raise. *)
Lemma replace_decimals_beyond_precision d :
  (10 ^ context_prec ≤ Z.abs (decimal_to_int d))%Z →
  CRUD._replace_decimals (VDecimal d) = Raise "InvalidOperation".
Proof.
  intros Hd. cbn. rewrite decimal_mod_one_beyond; [done|].
  apply Z.ltb_ge. done.
Qed.

End conversion.

(** ** The reference base64 round trip *)

Section base64_facts.
Import Base64.

Lemma below_64 (P : N → Prop) :
  Forall P (N.of_nat <$> seq 0 64) → ∀ n, (n < 64)%N → P n.
Proof.
  intros HP n Hn. rewrite Forall_forall in HP. apply HP.
  apply list_elem_of_fmap. exists (N.to_nat n). split; [lia|].
  apply elem_of_seq. lia.
Qed.

Lemma sextet_digit n : (n < 64)%N → sextet (digit n) = Some n.
Proof. revert n. apply below_64. repeat constructor. Qed.

Lemma digit_not_pad n : (n < 64)%N → Ascii.eqb (digit n) "=" = false.
Proof. revert n. apply below_64. repeat constructor. Qed.

Lemma string_ind3 (P : string → Prop) :
  P EmptyString →
  (∀ a, P (String a EmptyString)) →
  (∀ a b, P (String a (String b EmptyString))) →
  (∀ a b c s, P s → P (String a (String b (String c s)))) →
  ∀ s, P s.
Proof.
  intros H0 H1 H2 H3 s.
  assert (P s ∧ (∀ a, P (String a s)) ∧ ∀ a b, P (String a (String b s))) as [? _];
    [|done].
  induction s as [|c s (IH0 & IH1 & IH2)]; [by auto|].
  split_and!; [by auto|by auto|]. intros a b. by apply H3.
Qed.

Lemma byte_bound a : (N_of_ascii a < 256)%N.
Proof. apply N_ascii_bounded. Qed.

(** Linear arithmetic with division and remainder by constants. *)
Ltac divmod_lia := zify; Z.to_euclidean_division_equations; lia.

Lemma decode_one k tail :
  (k < 256)%N →
  decode_group (digit (k / 4)) (digit (k mod 4 * 16)) "=" "=" true tail
  = Some (String (byte k) EmptyString).
Proof.
  intros. unfold decode_group. rewrite !sextet_digit by divmod_lia. cbn.
  do 3 f_equal. divmod_lia.
Qed.

Lemma decode_two k m tail :
  (k < 256)%N → (m < 256)%N →
  decode_group (digit (k / 4)) (digit (k mod 4 * 16 + m / 16))
    (digit (m mod 16 * 4)) "=" true tail
  = Some (String (byte k) (String (byte m) EmptyString)).
Proof.
  intros. unfold decode_group.
  rewrite !sextet_digit, digit_not_pad by divmod_lia. cbn.
  do 2 f_equal; [f_equal; divmod_lia|]. do 2 f_equal. divmod_lia.
Qed.

Lemma decode_three k m n last tail :
  (k < 256)%N → (m < 256)%N → (n < 256)%N →
  decode_group (digit (k / 4)) (digit (k mod 4 * 16 + m / 16))
    (digit (m mod 16 * 4 + n / 64)) (digit (n mod 64)) last (Some tail)
  = Some (String (byte k) (String (byte m) (String (byte n) tail))).
Proof.
  intros. unfold decode_group.
  rewrite !sextet_digit, !digit_not_pad by divmod_lia. cbn.
  do 2 f_equal; [f_equal; divmod_lia|]. f_equal; [f_equal; divmod_lia|].
  do 2 f_equal. divmod_lia.
Qed.

Lemma byte_N_of_ascii a : byte (N_of_ascii a) = a.
Proof. apply ascii_N_embedding. Qed.

Lemma decode_encode s : decode (encode s) = Some s.
Proof.
  induction s as [|a|a b|a b c s IH] using string_ind3.
  - reflexivity.
  - cbn [encode decode is_empty].
    rewrite decode_one by apply byte_bound. by rewrite byte_N_of_ascii.
  - cbn [encode decode is_empty].
    rewrite decode_two by apply byte_bound. by rewrite !byte_N_of_ascii.
  - cbn [encode decode]. rewrite IH.
    rewrite decode_three by apply byte_bound. by rewrite !byte_N_of_ascii.
Qed.
End base64_facts.

(** ** The properties on the reference platform *)

(** Membership in a concrete list, decided by computation. *)
Ltac in_list := apply (bool_decide_unpack _); vm_compute; exact I.

Section examples.
#[local] Existing Instance reference_platform.

#[local] Instance reference_base64_law : Base64Law.
Proof. exact decode_encode. Qed.

Lemma reference_kms_inverts i key p blob :
  kms_encrypt i key p = Ret blob → ∀ j, kms_decrypt j blob = Ret p.
Proof. cbn. by intros [= <-] j. Qed.

Lemma reference_clock_monotone m n : (m ≤ n)%nat → (time_ms m ≤ time_ms n)%Z.
Proof. cbn. lia. Qed.

Lemma create_fills_missing_id_witness :
  (let st := initial_state default_handler in
   let r := response_of (CRUD.create (VDict person)) st in
   let st' := state_after (CRUD.create (VDict person)) st in
   ∃ d n, data r = VDict d ∧
     (uuids st ≤ n < uuids st')%nat ∧ d !! "id" = Some (VStr (uuid4 n)) ∧
     (Inj (=) (=) uuid4 → ∀ m, (m < uuids st)%nat → uuid4 m ≠ uuid4 n) ∧
     is_Some (d !! "created_at") ∧ d !! "modified_at" = d !! "created_at" ∧
     (∀ k v, person !! k = Some v → k ≠ "modified_at" →
             k ∉ encrypted_names (self st) → d !! k = Some v)) ∧
  (let st := initial_state read_only_handler in
   ∃ r, CRUD.create (VDict person) st = (Ret r, st) ∧
        is_error "UnsupportedOperation" r) ∧
  (let st := failing_state default_handler in
   ∃ r, CRUD.create (VDict person) st
        = (Ret r, state_after (CRUD.create (VDict person)) st) ∧
        fault_reported
          (ClientError (Some "Rate exceeded")
             (Some "ProvisionedThroughputExceededException") None) r).
Proof.
  split_and!.
  - intros st r st'.
    destruct (create_fills_missing_id st person) as (Hsuccess & _ & _).
    + exists (Kwargs None None None None), example_table. reflexivity.
    + reflexivity.
    + in_list.
    + in_list.
    + in_list.
    + apply (Hsuccess r st').
      * vm_compute. reflexivity.
      * reflexivity.
  - intros st.
    destruct (create_fills_missing_id st person) as (_ & Hnot_allowed & _).
    + exists (Kwargs None (Some ["get"]) None None), example_table. reflexivity.
    + reflexivity.
    + in_list.
    + in_list.
    + in_list.
    + apply Hnot_allowed. in_list.
  - intros st.
    destruct (create_fills_missing_id st person) as (_ & _ & Hrefused).
    + exists (Kwargs None None None None), example_table. reflexivity.
    + reflexivity.
    + in_list.
    + in_list.
    + in_list.
    + apply (Hrefused ltac:(in_list)
               (<["modified_at" := VInt 1469000000000]>
                  (<["id" := VStr "uuid-0"]>
                     (<["created_at" := VInt 1469000000000]> person)))
               (State default_handler 1 1 0 ∅ (faults st) [])).
      * eexists _, _, _. split_and!; vm_compute; reflexivity.
      * vm_compute. reflexivity.
Defined.

(** C1, as stated, fails: when the store refuses the write, create
    returns an error envelope without data. *)
Lemma create_without_data_on_store_failure :
  (∅ : item) !! "id" = None ∧
  ∃ r st', CRUD.create (VDict ∅) (failing_state default_handler) = (Ret r, st') ∧
           status r = "error" ∧ data r = VNone.
Proof.
  split; [reflexivity|]. eexists _, _. split; [vm_compute; reflexivity|]. by split.
Qed.



Lemma update_stamps_modified_at_witness :
  let st := state_after (CRUD.create (VDict ∅)) (initial_state default_handler) in
  let st' := state_after (CRUD.update (VDict {[ "id" := VStr "uuid-0" ]})) st in
  ∃ k d, data (response_of (CRUD.update (VDict {[ "id" := VStr "uuid-0" ]})) st) = VDict d ∧
    d !! "id" = Some (VStr k) ∧
    stored_attribute st' k "modified_at" = Some (stored_timestamp (time_ms (ticks st))) ∧
    clock_stamped st' k ∧
    (clock_stamped st k →
     ∀ old, stored_attribute st k "modified_at" = Some old →
            timestamp_le old (stored_timestamp (time_ms (ticks st)))).
Proof.
  intros st st'.
  apply (update_stamps_modified_at st {[ "id" := VStr "uuid-0" ]}
           (response_of (CRUD.update (VDict {[ "id" := VStr "uuid-0" ]})) st) st').
  - intros m n Hmn. cbn. lia.
  - in_list.
  - vm_compute. reflexivity.
  - reflexivity.
Defined.

(** C8, as stated, fails: an item created with a created_at in the
    future has a stored modified_at that an update moves backwards, on a
    clock that never runs backwards. *)
Lemma update_moves_modified_at_backwards :
  let st := state_after (CRUD.create (VDict postdated)) (initial_state default_handler) in
  let st' := state_after (CRUD.update (VDict {[ "id" := VStr "a" ]})) st in
  (∀ m n, (m ≤ n)%nat → (time_ms m ≤ time_ms n)%Z) ∧
  status (response_of (CRUD.update (VDict {[ "id" := VStr "a" ]})) st) = "success" ∧
  stored_attribute st "a" "modified_at" = Some (stored_timestamp 9999999999999) ∧
  stored_attribute st' "a" "modified_at" = Some (stored_timestamp 1469000000000) ∧
  ¬ timestamp_le (stored_timestamp 9999999999999) (stored_timestamp 1469000000000).
Proof.
  intros st st'. split; [apply reference_clock_monotone|].
  split; [reflexivity|]. split; [reflexivity|]. split; [reflexivity|].
  cbn. lia.
Qed.

Lemma encrypted_attribute_round_trip_witness :
  let st := initial_state encrypting_handler in
  let st1 := state_after (CRUD.create (VDict person)) st in
  ∃ d2, data (response_of (CRUD.get (VStr "uuid-0") true) st1) = VDict d2 ∧
        d2 !! "ssn" = Some (VStr "078-05-1120").
Proof.
  intros st st1.
  apply (encrypted_attribute_round_trip st person "ssn" (VStr "078-05-1120")
           (response_of (CRUD.create (VDict person)) st) st1
           (match data (response_of (CRUD.create (VDict person)) st) with
            | VDict d => d
            | _ => ∅
            end)
           (VStr "uuid-0")
           (response_of (CRUD.get (VStr "uuid-0") true) st1)
           (state_after (CRUD.get (VStr "uuid-0") true) st1)).
  - apply reference_kms_inverts.
  - in_list.
  - done.
  - reflexivity.
  - vm_compute. reflexivity.
  - reflexivity.
  - vm_compute. reflexivity.
  - reflexivity.
  - vm_compute. reflexivity.
  - reflexivity.
Defined.

(** C7, as stated, fails for the attribute modified_at: create overwrites
    it with created_at before it encrypts. *)
Lemma encrypted_modified_at_is_not_restored :
  let st := initial_state stamp_encrypting_handler in
  let st1 := state_after (CRUD.create (VDict backdated)) st in
  "modified_at" ∈ encrypted_names stamp_encrypting_handler ∧
  backdated !! "modified_at" = Some (VStr "secret") ∧
  status (response_of (CRUD.create (VDict backdated)) st) = "success" ∧
  ∃ r2 st2 d2, CRUD.get (VStr "uuid-0") true st1 = (Ret r2, st2) ∧
    status r2 = "success" ∧ data r2 = VDict d2 ∧
    d2 !! "modified_at" = Some (VStr "2016-07-20").
Proof.
  intros st st1. split; [in_list|]. split; [reflexivity|]. split; [reflexivity|].
  eexists _, _, _. split; [vm_compute; reflexivity|].
  split; [reflexivity|]. split; reflexivity.
Qed.

(** C6: a whole number of 29 digits is written without complaint and
    makes every later read of the item raise InvalidOperation. *)
Lemma get_raises_on_large_whole_number :
  let st := state_after (CRUD.update (VDict large)) (initial_state default_handler) in
  status (response_of (CRUD.update (VDict large)) (initial_state default_handler))
  = "success" ∧
  stored_attribute st "a" "n" = Some (VDecimal (Dec (10 ^ 28) 0)) ∧
  fst (CRUD.get (VStr "a") false st) = Raise "InvalidOperation" ∧
  fst (CRUD.list st) = Raise "InvalidOperation".
Proof. intros st. repeat split; vm_compute; reflexivity. Qed.

Lemma envelope_invariant_holds_witness :
  envelope_invariant
    (response_of (CRUD.get VNone false) (initial_state default_handler)).
Proof.
  apply (envelope_invariant_holds (CallGet VNone false)
           (initial_state default_handler) _
           (state_after (CRUD.get VNone false) (initial_state default_handler))).
  reflexivity.
Defined.

Lemma unsupported_operation_rejected_witness :
  ∃ r, invoke (CallHandler (VDict ∅) "Create") (initial_state list_only_handler)
       = (Ret r, initial_state list_only_handler)
       ∧ is_error "UnsupportedOperation" r.
Proof.
  apply (unsupported_operation_rejected (CallHandler (VDict ∅) "Create")
           (initial_state list_only_handler)).
  in_list.
Defined.

(** C5, as stated, fails: the name LIST is not in the default allow-list,
    yet the dispatcher runs the scan and returns its result. *)
Lemma dispatcher_accepts_other_case :
  (named_operation (CallHandler (VDict ∅) "LIST") ∉ supported_ops default_handler) ∧
  ∃ r st',
    invoke (CallHandler (VDict ∅) "LIST") (initial_state default_handler) = (Ret r, st') ∧
    status r = "success" ∧ requests st' = [Scan].
Proof.
  split; [in_list|].
  eexists _, _. split; [vm_compute; reflexivity|]. split; reflexivity.
Qed.

Lemma get_reports_missing_id_and_item_witness :
  (∃ r, CRUD.get VNone true (initial_state default_handler)
        = (Ret r, initial_state default_handler) ∧ is_error "IDRequired" r) ∧
  (∃ r, CRUD.get (VStr "42") true (initial_state default_handler)
        = (Ret r, state_after (CRUD.get (VStr "42") true) (initial_state default_handler))
        ∧ is_error "NotFound" r).
Proof.
  assert ("get" ∈ supported_ops (self (initial_state default_handler))) as Hop.
  { in_list. }
  split.
  - by apply (get_reports_missing_id_and_item (initial_state default_handler)
                VNone true Hop).
  - by apply (proj2 (get_reports_missing_id_and_item (initial_state default_handler)
                       (VStr "42") true Hop)) with (md := 0).
Defined.

(** C3, as stated, fails: a handler that does not allow get answers a
    None id with UnsupportedOperation and not with IDRequired. *)
Lemma get_without_id_not_allowed :
  ∃ r, CRUD.get VNone false (initial_state list_only_handler)
       = (Ret r, initial_state list_only_handler) ∧
       error_type r = Some "UnsupportedOperation" ∧
       error_type r ≠ Some "IDRequired".
Proof. eexists. split; [vm_compute; reflexivity|]. by split. Qed.

(** C2, as stated, fails: a handler that does not allow query answers a
    string without '=' with UnsupportedOperation. *)
Lemma query_not_allowed :
  contains_char "=" "foo" = false ∧
  ∃ r, CRUD.query (VStr "foo") (initial_state list_only_handler)
       = (Ret r, initial_state list_only_handler) ∧
       error_type r = Some "UnsupportedOperation" ∧
       error_type r ≠ Some "InvalidQuery".
Proof.
  split; [reflexivity|]. eexists. split; [vm_compute; reflexivity|]. by split.
Qed.

(** C4: a query string with two '=' makes [query] raise ValueError. *)
Lemma query_with_two_equals_raises :
  CRUD.query (VStr "a=b=c") (initial_state default_handler)
  = (Raise "ValueError", initial_state default_handler).
Proof. vm_compute. reflexivity. Qed.

End examples.

(** * Further properties *)

(** ** What the operations leave alone *)

Lemma preserves_ret {A B} (f : state → B) (a : A) : preserves f (ret a).
Proof. by intros ??? [= <- <-]. Qed.

Lemma preserves_raise {A B} (f : state → B) e : preserves f (raise (A:=A) e).
Proof. by intros ??? [= <- <-]. Qed.

Lemma preserves_lift {A B} (f : state → B) (o : outcome A) : preserves f (lift o).
Proof. by intros ??? [= <- <-]. Qed.

Lemma preserves_gets {A B} (f : state → B) (g : state → A) : preserves f (gets g).
Proof. by intros ??? [= <- <-]. Qed.

Lemma preserves_bind {A B C} (f : state → C) (m : M A) (k : A → M B) :
  preserves f m → (∀ a, preserves f (k a)) → preserves f (bind m k).
Proof.
  intros Hm Hk st o st'. unfold bind.
  destruct (m st) as [[a|e] st1] eqn:Hrun.
  - intros ?%Hk. apply Hm in Hrun. congruence.
  - intros [= <- <-]. by apply Hm in Hrun.
Qed.

Lemma issues_weaken {A} n n' (m : M A) : (n ≤ n')%nat → issues n m → issues n' m.
Proof.
  intros Hn Hm st o st' Hrun. destruct (Hm _ _ _ Hrun) as (l & ? & ?).
  exists l. split; [done|lia].
Qed.

Lemma issues_ret {A} (a : A) : issues 0 (ret a).
Proof. intros ??? [= <- <-]. exists []. by rewrite app_nil_r. Qed.

Lemma issues_raise {A} e : issues 0 (raise (A:=A) e).
Proof. intros ??? [= <- <-]. exists []. by rewrite app_nil_r. Qed.

Lemma issues_lift {A} (o : outcome A) : issues 0 (lift o).
Proof. intros ??? [= <- <-]. exists []. by rewrite app_nil_r. Qed.

Lemma issues_gets {A} (g : state → A) : issues 0 (gets g).
Proof. intros ??? [= <- <-]. exists []. by rewrite app_nil_r. Qed.

Lemma issues_bind {A B} n1 n2 (m : M A) (k : A → M B) :
  issues n1 m → (∀ a, issues n2 (k a)) → issues (n1 + n2) (bind m k).
Proof.
  intros Hm Hk st o st'. unfold bind.
  destruct (m st) as [[a|e] st1] eqn:Hrun.
  - intros (l2 & Hl2 & ?)%Hk. apply Hm in Hrun as (l1 & Hl1 & ?).
    exists (l1 ++ l2)%list. rewrite Hl2, Hl1, app_assoc, length_app.
    split; [done|lia].
  - intros [= <- <-]. apply Hm in Hrun as (l1 & Hl1 & ?).
    exists l1. split; [done|lia].
Qed.

Lemma issues_preserves {A} (m : M A) : preserves requests m → issues 0 m.
Proof.
  intros Hm st o st' Hrun. exists []. rewrite app_nil_r. split; [|done].
  by eapply Hm.
Qed.

Section frames.
Context `{Platform}.

(** The steps that touch nothing but an oracle counter. *)
Lemma check_frame token st o st' :
  Tokens.check token st = (o, st') →
  self st' = self st ∧ table st' = table st ∧ faults st' = faults st ∧
  requests st' = requests st ∧ kms_calls st' = kms_calls st.
Proof.
  unfold Tokens.check, Tokens._get_uuid, Tokens._get_timestamp, ret, raise.
  intros Hrun. repeat case_match; by simplify_eq.
Qed.

Lemma kms_encrypt_call_frame key v st o st' :
  CRUD.kms_encrypt_call key v st = (o, st') →
  table st' = table st ∧ requests st' = requests st ∧
  uuids st' = uuids st ∧ ticks st' = ticks st.
Proof.
  unfold CRUD.kms_encrypt_call, raise. intros Hrun.
  destruct v; by simplify_eq.
Qed.

Lemma kms_decrypt_call_frame v st o st' :
  CRUD.kms_decrypt_call v st = (o, st') →
  table st' = table st ∧ requests st' = requests st ∧
  uuids st' = uuids st ∧ ticks st' = ticks st.
Proof.
  unfold CRUD.kms_decrypt_call, raise. intros Hrun.
  repeat case_match; by simplify_eq.
Qed.

Lemma ddb_execute_read rq tbl res tbl' :
  is_read_request rq = true →
  ddb_execute rq tbl = (res, tbl') → tbl' = tbl.
Proof.
  unfold ddb_execute. intros Hrq Hex.
  destruct rq; try done; repeat case_match; by simplify_eq.
Qed.

Lemma ddb_request_read rq st res st' :
  is_read_request rq = true →
  ddb_request rq st = (res, st') → table st' = table st.
Proof.
  unfold ddb_request. intros Hrq Hrun.
  destruct (faults st) as [|[f|] rest]; try (by simplify_eq);
    destruct (ddb_execute rq (table st)) as [res' tbl] eqn:Hex;
    apply ddb_execute_read in Hex; by simplify_eq.
Qed.

Lemma call_ddb_method_inv rq r st o st' :
  CRUD._call_ddb_method rq r st = (o, st') →
  ∃ res, ddb_request rq st = (res, st').
Proof.
  unfold CRUD._call_ddb_method.
  destruct (ddb_request rq st) as [[[]|] st1]; intros [= <- <-]; by eexists.
Qed.

(** Leaves of the operations, for each component of the state. *)
Lemma preserves_table_check token : preserves table (Tokens.check token).
Proof. intros ??? Hrun. by apply check_frame in Hrun as (_ & ? & _). Qed.

Lemma preserves_requests_check token : preserves requests (Tokens.check token).
Proof. intros ??? Hrun. by apply check_frame in Hrun as (_ & _ & _ & ? & _). Qed.

Lemma preserves_kms_calls_check token : preserves kms_calls (Tokens.check token).
Proof. intros ??? Hrun. by apply check_frame in Hrun as (_ & _ & _ & _ & ?). Qed.

Lemma preserves_table_read rq r :
  is_read_request rq = true → preserves table (CRUD._call_ddb_method rq r).
Proof.
  intros Hrq st o st' (res & Hrun)%call_ddb_method_inv.
  by eapply ddb_request_read.
Qed.

Lemma preserves_call_ddb_method {B} (f : state → B) rq r :
  (∀ st res st', ddb_request rq st = (res, st') → f st' = f st) →
  preserves f (CRUD._call_ddb_method rq r).
Proof. intros Hf st o st' (res & Hrun)%call_ddb_method_inv. eauto. Qed.

Lemma preserves_uuids_call rq r : preserves uuids (CRUD._call_ddb_method rq r).
Proof.
  apply preserves_call_ddb_method. intros st res st' Hrun.
  by apply ddb_request_logged in Hrun as (_ & _ & ? & _).
Qed.

Lemma preserves_ticks_call rq r : preserves ticks (CRUD._call_ddb_method rq r).
Proof.
  apply preserves_call_ddb_method. intros st res st' Hrun.
  by apply ddb_request_logged in Hrun as (_ & _ & _ & ? & _).
Qed.

Lemma preserves_kms_calls_call rq r : preserves kms_calls (CRUD._call_ddb_method rq r).
Proof.
  apply preserves_call_ddb_method. intros st res st' Hrun.
  by apply ddb_request_logged in Hrun as (_ & _ & _ & _ & ?).
Qed.

Lemma issues_call_ddb_method rq r : issues 1 (CRUD._call_ddb_method rq r).
Proof.
  intros st o st' (res & Hrun)%call_ddb_method_inv.
  apply ddb_request_logged in Hrun as (? & _). by exists [rq].
Qed.

Lemma preserves_decrypt_loop {B} (f : state → B) attrs it :
  (∀ v, preserves f (CRUD.kms_decrypt_call v)) →
  preserves f (CRUD._decrypt_loop attrs it).
Proof.
  intros Hf. revert it. induction attrs as [|[a key] attrs IH]; intros it; cbn.
  - apply preserves_ret.
  - destruct (it !! a); [|done]. by apply preserves_bind.
Qed.

Lemma preserves_encrypt_loop {B} (f : state → B) attrs it :
  (∀ key v, preserves f (CRUD.kms_encrypt_call key v)) →
  preserves f (CRUD._encrypt_loop attrs it).
Proof.
  intros Hf. revert it. induction attrs as [|[a key] attrs IH]; intros it; cbn.
  - apply preserves_ret.
  - destruct (it !! a); [|done]. by apply preserves_bind.
Qed.

Lemma preserves_handle_defaults_loop {B} (f : state → B) missing it :
  (∀ token, preserves f (Tokens.check token)) →
  preserves f (CRUD._handle_defaults_loop missing it).
Proof.
  intros Hf. revert it. induction missing as [|[k token] missing IH]; intros it; cbn.
  - apply preserves_ret.
  - by apply preserves_bind.
Qed.

Lemma preserves_table_kms_decrypt v : preserves table (CRUD.kms_decrypt_call v).
Proof. intros ??? Hrun. by apply kms_decrypt_call_frame in Hrun as (? & _). Qed.

Lemma preserves_uuids_kms_decrypt v : preserves uuids (CRUD.kms_decrypt_call v).
Proof. intros ??? Hrun. by apply kms_decrypt_call_frame in Hrun as (_ & _ & ? & _). Qed.

Lemma preserves_ticks_kms_decrypt v : preserves ticks (CRUD.kms_decrypt_call v).
Proof. intros ??? Hrun. by apply kms_decrypt_call_frame in Hrun as (_ & _ & _ & ?). Qed.

Lemma preserves_requests_kms_decrypt v : preserves requests (CRUD.kms_decrypt_call v).
Proof. intros ??? Hrun. by apply kms_decrypt_call_frame in Hrun as (_ & ? & _). Qed.

Lemma preserves_table_kms_encrypt key v :
  preserves table (CRUD.kms_encrypt_call key v).
Proof. intros ??? Hrun. by apply kms_encrypt_call_frame in Hrun as (? & _). Qed.

Lemma preserves_requests_kms_encrypt key v :
  preserves requests (CRUD.kms_encrypt_call key v).
Proof. intros ??? Hrun. by apply kms_encrypt_call_frame in Hrun as (_ & ? & _). Qed.

End frames.

(** Syntax-directed proof that a run preserves a component, given a
    tactic for the leaves. *)
Ltac frame leaf :=
  repeat first
    [ apply preserves_ret | apply preserves_raise | apply preserves_lift
    | apply preserves_gets
    | apply preserves_decrypt_loop; intros
    | apply preserves_encrypt_loop; intros
    | apply preserves_handle_defaults_loop; intros
    | leaf
    | apply preserves_bind; [|intros ?]
    | case_match ].

Ltac unfold_operations :=
  unfold CRUD.query, CRUD.list, CRUD.get, CRUD.create, CRUD.update,
    CRUD.delete, CRUD._new_response, CRUD._check_supported_op,
    CRUD._encrypt, CRUD._decrypt, CRUD._handle_defaults.

Section frame_theorems.
Context `{Platform}.

Lemma preserves_table_reads (c : call) :
  is_read c = true → preserves table (invoke c).
Proof.
  intros Hc. destruct c; try done; unfold invoke; unfold_operations.
  all: frame ltac:(first
         [ by apply preserves_table_read | apply preserves_table_kms_decrypt ]).
Qed.

(** X1. the calls that read leave the table, the identifier generator and
    the clock alone, whatever their outcome. *)
Theorem reads_change_nothing (c : call) st o st' :
  is_read c = true →
  invoke c st = (o, st') →
  table st' = table st ∧ uuids st' = uuids st ∧ ticks st' = ticks st.
Proof.
  intros Hc Hrun.
  pose proof (preserves_table_reads c Hc) as Ht.
  assert (preserves uuids (invoke c) ∧ preserves ticks (invoke c)) as (Hu & Hk).
  { destruct c; try done; unfold invoke; unfold_operations; split_and!.
    all: frame ltac:(first
           [ apply preserves_uuids_call | apply preserves_uuids_kms_decrypt
           | apply preserves_ticks_call | apply preserves_ticks_kms_decrypt ]). }
  split_and!; eauto.
Qed.

(** X2. query, list, get without decrypt and delete never call the
    key-management service. *)
Theorem no_kms_call_without_decrypt (c : call) st o st' :
  without_kms c = true →
  invoke c st = (o, st') → kms_calls st' = kms_calls st.
Proof.
  intros Hc. revert st o st'. change (preserves kms_calls (invoke c)).
  destruct c as [| |? []| | | |]; try done; unfold invoke; unfold_operations.
  all: frame ltac:(apply preserves_kms_calls_call).
Qed.

End frame_theorems.

(** ** One store request at most *)

Lemma issues_bind_quiet {A B} (m : M A) (k : A → M B) :
  issues 0 m → (∀ a, issues 0 (k a)) → issues 0 (bind m k).
Proof. intros. by apply (issues_bind 0 0). Qed.

Lemma issues_bind_before {A B} (m : M A) (k : A → M B) :
  issues 0 m → (∀ a, issues 1 (k a)) → issues 1 (bind m k).
Proof. intros. by apply (issues_bind 0 1). Qed.

Lemma issues_bind_after {A B} (m : M A) (k : A → M B) :
  issues 1 m → (∀ a, issues 0 (k a)) → issues 1 (bind m k).
Proof. intros. by apply (issues_bind 1 0). Qed.

Section issues.
Context `{Platform}.

Lemma issues_check token : issues 0 (Tokens.check token).
Proof. apply issues_preserves, preserves_requests_check. Qed.

Lemma issues_encrypt_loop attrs it : issues 0 (CRUD._encrypt_loop attrs it).
Proof.
  apply issues_preserves, preserves_encrypt_loop, preserves_requests_kms_encrypt.
Qed.

Lemma issues_decrypt_loop attrs it : issues 0 (CRUD._decrypt_loop attrs it).
Proof.
  apply issues_preserves, preserves_decrypt_loop, preserves_requests_kms_decrypt.
Qed.

Lemma issues_handle_defaults_loop missing it :
  issues 0 (CRUD._handle_defaults_loop missing it).
Proof.
  apply issues_preserves, preserves_handle_defaults_loop, preserves_requests_check.
Qed.

(** A part of an operation that sends nothing. *)
Ltac quiet :=
  solve [ repeat first
    [ apply issues_ret | apply issues_raise | apply issues_lift
    | apply issues_gets | apply issues_check | apply issues_encrypt_loop
    | apply issues_decrypt_loop | apply issues_handle_defaults_loop
    | apply issues_bind_quiet; [|intros ?]
    | case_match ] ].

(** A part of an operation that sends one request at most. *)
Ltac one_request :=
  first
    [ apply (issues_weaken 0 1); [lia|quiet]
    | apply issues_call_ddb_method
    | apply issues_bind_before; [quiet|intros ?; one_request]
    | apply issues_bind_after; [one_request|intros ?; quiet]
    | case_match; one_request ].

Lemma issues_query q : issues 1 (CRUD.query q).
Proof. unfold_operations. one_request. Qed.

Lemma issues_list : issues 1 CRUD.list.
Proof. unfold_operations. one_request. Qed.

Lemma issues_get id decrypt : issues 1 (CRUD.get id decrypt).
Proof. unfold_operations. one_request. Qed.

Lemma issues_create payload : issues 1 (CRUD.create payload).
Proof. unfold_operations. one_request. Qed.

Lemma issues_update payload : issues 1 (CRUD.update payload).
Proof. unfold_operations. one_request. Qed.

Lemma issues_delete id : issues 1 (CRUD.delete id).
Proof. unfold_operations. one_request. Qed.

Lemma issues_handler payload operation : issues 1 (CRUD.handler payload operation).
Proof.
  unfold CRUD.handler, CRUD._new_response, CRUD._check_supported_op.
  apply issues_bind_before; [quiet|intros ?].
  apply issues_bind_before; [quiet|intros ?].
  repeat case_match;
    first [ apply issues_list | apply issues_create | apply issues_update
          | apply issues_query
          | apply issues_bind_before; [quiet|intros ?];
            first [apply issues_get | apply issues_delete]
          | apply (issues_weaken 0 1); [lia|quiet] ].
Qed.

(** X3. a call, whatever its outcome, sends at most one request to the
    store and leaves the earlier requests of the log in place. *)
Theorem at_most_one_store_request (c : call) st o st' :
  invoke c st = (o, st') →
  ∃ l, requests st' = (requests st ++ l)%list ∧ (length l ≤ 1)%nat.
Proof.
  revert st o st'. change (issues 1 (invoke c)).
  destruct c; unfold invoke;
    auto using issues_query, issues_list, issues_get, issues_create,
      issues_update, issues_delete, issues_handler.
Qed.

End issues.

(** ** Construction of a handler *)

(** X4. the constructor raises CruddyKeySchemaException exactly for a key
    schema that does not consist of one attribute, raises
    CruddyKeyNameException exactly when that one attribute is not id, and
    returns a handler exactly for the key schema [id]; the keyword
    arguments play no part in this. *)
Theorem init_checks_key_schema kw t :
  (CRUD.__init__ kw t = Raise "CruddyKeySchemaException" ↔ length (key_schema t) ≠ 1) ∧
  (CRUD.__init__ kw t = Raise "CruddyKeyNameException"
   ↔ ∃ hash, key_schema t = [hash] ∧ hash ≠ "id") ∧
  ((∃ c, CRUD.__init__ kw t = Ret c) ↔ key_schema t = ["id"]).
Proof.
  unfold CRUD.__init__, CRUD._analyze_table.
  destruct (key_schema t) as [|hash [|]] eqn:Hks; cbn.
  - split_and!; split; try done; [by intros (? & ? & _)|by intros (? & ?)].
  - destruct (String.eqb_spec hash "id") as [->|Hne]; cbn.
    + split_and!; split; try done; [by intros (? & [= <-] & ?)|by eauto].
    + split_and!; split; try done; [by eauto|by intros (? & ?)|by intros [= ->]].
  - split_and!; split; try done; [by intros (? & ? & _)|by intros (? & ?)].
Qed.

Lemma analyze_fold a gsis (idx : gmap string string) :
  foldl (λ idx g,
           match KeySchema g with
           | [gsi_hash] => <[gsi_hash := IndexName g]> idx
           | _ => idx
           end) idx gsis !! a
  = match last (indexes_on a gsis) with
    | Some g => Some (IndexName g)
    | None => idx !! a
    end.
Proof.
  revert idx. unfold indexes_on.
  induction gsis as [|g gsis IH]; intros idx; [done|].
  cbn [foldl]. rewrite IH, filter_cons.
  destruct (decide (KeySchema g = [a])) as [Hg|Hg].
  - rewrite Hg. rewrite last_cons.
    destruct (last (filter _ gsis)); [done|]. by rewrite lookup_insert_eq.
  - destruct (last (filter _ gsis)); [done|].
    destruct (KeySchema g) as [|h [|]]; try done.
    rewrite lookup_insert_ne; [done|]. by intros ->.
Qed.

(** X5. the index map of a handler sends an attribute to the name of the
    last declared index whose key schema is that attribute alone; an
    attribute that only occurs in composite key schemas, or in none, is
    not in the map. *)
Theorem init_index_map kw t c a :
  CRUD.__init__ kw t = Ret c →
  _indexes c !! a = IndexName <$> last (indexes_on a (declared_indexes t)).
Proof.
  unfold CRUD.__init__, CRUD._analyze_table, declared_indexes.
  destruct (key_schema t) as [|hash [|]]; try done.
  destruct (String.eqb hash "id"); [|done].
  intros [= <-]. cbn.
  destruct (global_secondary_indexes t) as [gsis|]; cbn; [|done].
  rewrite analyze_fold. by destruct (last _).
Qed.

(** ** Tokens *)

Lemma non_space_run_app s rest :
  no_space s = true →
  Tokens.non_space_run (s ++ rest) = s ++ Tokens.non_space_run rest.
Proof.
  induction s as [|a s IH]; [done|].
  cbn [no_space]. intros [Ha Hs]%andb_true_iff. apply negb_true_iff in Ha.
  change (String a s ++ rest) with (String a (s ++ rest)).
  change (String a s ++ Tokens.non_space_run rest)
    with (String a (s ++ Tokens.non_space_run rest)).
  cbn [Tokens.non_space_run]. by rewrite Ha, IH.
Qed.

Lemma upto_last_gt_none s :
  contains_char ">" s = false → Tokens.upto_last_gt s = None.
Proof.
  induction s as [|a s IH]; cbn; [done|].
  intros [Ha Hs]%orb_false_iff. by rewrite IH, Ha.
Qed.

Lemma upto_last_gt_app s rest :
  contains_char ">" rest = false →
  Tokens.upto_last_gt (s ++ String ">" rest) = Some s.
Proof.
  intros Hrest. induction s as [|a s IH].
  - change (EmptyString ++ String ">" rest) with (String ">" rest).
    cbn. by rewrite upto_last_gt_none.
  - change (String a s ++ String ">" rest) with (String a (s ++ String ">" rest)).
    cbn [Tokens.upto_last_gt]. by rewrite IH.
Qed.

Lemma token_re_match_run name rest :
  name ≠ EmptyString → no_space name = true →
  contains_char ">" (Tokens.non_space_run rest) = false →
  Tokens.token_re_match (String "<" (name ++ String ">" rest)) = Some name.
Proof.
  intros Hne Hns Hrest. unfold Tokens.token_re_match.
  rewrite non_space_run_app by done.
  assert (Tokens.non_space_run (String ">" rest)
          = String ">" (Tokens.non_space_run rest)) as -> by reflexivity.
  destruct name as [|a name]; [done|].
  change (String a name ++ String ">" (Tokens.non_space_run rest))
    with (String a (name ++ String ">" (Tokens.non_space_run rest))).
  cbn beta iota. by rewrite upto_last_gt_app.
Qed.

(** X6. the token pattern recognises a name between angle brackets at the
    start of a string: for a non-empty name without white space, followed
    by anything whose first run of non-blank characters holds no further
    closing bracket, the match is the name. *)
Theorem token_re_match_name name rest :
  name ≠ EmptyString → no_space name = true →
  contains_char ">" (Tokens.non_space_run rest) = false →
  Tokens.token_re_match (String "<" (name ++ String ">" rest)) = Some name.
Proof. apply token_re_match_run. Qed.

Section tokens.
Context `{Platform}.

(** X7. a string that starts with the uuid token (the timestamp token)
    and goes on after white space is replaced as a whole by the next
    identifier (the next reading of the clock): what follows the token is
    dropped. *)
Theorem check_drops_text_after_token rest st :
  Tokens.check (VStr ("<uuid> " ++ rest)) st
  = (Ret (VStr (uuid4 (uuids st))), next_uuid st) ∧
  Tokens.check (VStr ("<timestamp> " ++ rest)) st
  = (Ret (VInt (time_ms (ticks st))), next_tick st).
Proof.
  unfold Tokens.check. split.
  - change ("<uuid> " ++ rest) with (String "<" ("uuid" ++ String ">" (String " " rest))).
    by rewrite token_re_match_run.
  - change ("<timestamp> " ++ rest)
      with (String "<" ("timestamp" ++ String ">" (String " " rest))).
    by rewrite token_re_match_run.
Qed.

End tokens.

(** ** Defaults *)

Section more_defaults.
Context `{Platform}.

Lemma check_string_returns s st :
  ∃ v st', Tokens.check (VStr s) st = (Ret v, st').
Proof.
  unfold Tokens.check, Tokens._get_uuid, Tokens._get_timestamp, ret.
  repeat case_match; by eexists _, _.
Qed.

Lemma handle_defaults_loop_raises missing it st k v :
  (k, v) ∈ missing → (∀ s, v ≠ VStr s) →
  ∃ st', CRUD._handle_defaults_loop missing it st = (Raise "TypeError", st') ∧
         requests st' = requests st ∧ table st' = table st.
Proof.
  intros Hin Hv. revert it st.
  induction missing as [|[k0 token0] missing IH]; intros it st;
    [by apply elem_of_nil in Hin|].
  cbn. destruct token0 as [| | | | |s| | |];
    try (exists st; by erewrite bind_raise).
  apply elem_of_cons in Hin as [[= -> ->]|Hin]; [by destruct (Hv s)|].
  destruct (check_string_returns s st) as (v0 & st1 & Hcheck).
  erewrite bind_run by done.
  destruct (IH Hin (<[k0:=v0]> it) st1) as (st' & -> & Hr & Ht).
  apply check_frame in Hcheck as (_ & ? & _ & ? & _).
  exists st'. split; [done|]. split; congruence.
Qed.

(** X8. when create is allowed and the item lacks an attribute whose
    default is not a string, create raises TypeError; nothing is sent to
    the store and the table is unchanged. *)
Theorem create_raises_on_non_string_default st it k v :
  "create" ∈ supported_ops (self st) →
  it !! k = None → defaults (self st) !! k = Some v → (∀ s, v ≠ VStr s) →
  ∃ st', CRUD.create (VDict it) st = (Raise "TypeError", st') ∧
         requests st' = requests st ∧ table st' = table st.
Proof.
  intros Hop Hk Hd Hv. unfold CRUD.create.
  erewrite bind_run by apply new_response_run.
  erewrite bind_run by (by apply check_supported_op_true).
  cbn beta iota.
  destruct (handle_defaults_loop_raises
              (map_to_list (defaults (self st) ∖ it)) it st k v) as (st' & Hloop & ? & ?);
    [|done|].
  { apply elem_of_map_to_list. by apply lookup_difference_Some. }
  exists st'. split; [|done].
  apply bind_raise. apply bind_raise.
  unfold CRUD._handle_defaults. by erewrite bind_run by reflexivity.
Qed.

(** X9. a successful create returns, untouched, every attribute that the
    caller supplied (id and created_at included), and gives every missing
    attribute whose default is a string without token that very string;
    modified_at and the encrypted attributes are the exceptions. *)
Theorem create_applies_defaults st it r st' :
  CRUD.create (VDict it) st = (Ret r, st') → status r = "success" →
  ∃ d, data r = VDict d ∧
    (∀ k v, it !! k = Some v → k ≠ "modified_at" →
            k ∉ encrypted_names (self st) → d !! k = Some v) ∧
    (∀ k s, it !! k = None → defaults (self st) !! k = Some (VStr s) →
            Tokens.token_re_match s = None → k ≠ "modified_at" →
            k ∉ encrypted_names (self st) → d !! k = Some (VStr s)).
Proof.
  intros Hrun Hs.
  destruct (create_success _ _ _ _ Hrun Hs)
    as (it1 & st1 & created_at & it2 & st2 & b & md & Hdef & Hc & Henc & Hput & Hdata).
  pose proof (handle_defaults_inv _ _ _ _ _ Hdef) as ((Hself1 & _) & Hkeep & Hfill).
  apply encrypt_inv in Henc. rewrite Hself1 in Henc.
  assert (∀ k, k ≠ "modified_at" → k ∉ encrypted_names (self st) →
               it2 !! k = it1 !! k) as Hsame.
  { intros k Hkm Hk. erewrite encrypt_loop_other by done.
    by rewrite lookup_insert_ne. }
  exists it2. split; [done|]. split.
  - intros k v Hk Hkm Hke. rewrite Hsame by done. by apply Hkeep.
  - intros k s Hk Hd Hm Hkm Hke. rewrite Hsame by done.
    destruct (Hfill _ _ Hk Hd) as (sta & stb & v & _ & Hcheck & _ & ->).
    unfold Tokens.check in Hcheck. rewrite Hm in Hcheck. by injection Hcheck as <- _.
Qed.

Lemma encrypt_loop_keys attrs it st it' st' k :
  CRUD._encrypt_loop attrs it st = (Ret it', st') →
  it' !! k = None ↔ it !! k = None.
Proof.
  revert it st. induction attrs as [|[a key] attrs IH]; intros it st Hrun.
  - cbn in Hrun. by run_inv.
  - cbn in Hrun. destruct (it !! a) eqn:Ha; [|by eauto].
    apply bind_Ret in Hrun as (blob & st1 & _ & Hrun).
    rewrite (IH _ _ Hrun). destruct (decide (k = a)) as [->|].
    + rewrite lookup_insert_eq, Ha. done.
    + by rewrite lookup_insert_ne.
Qed.

(** X10. update applies no defaults.  The data of a successful update has
    the attributes of the payload and modified_at, and no other; every
    attribute of the payload other than modified_at and the encrypted
    ones is returned untouched. *)
Theorem update_applies_no_defaults st it r st' :
  CRUD.update (VDict it) st = (Ret r, st') → status r = "success" →
  ∃ d, data r = VDict d ∧
    (∀ k, k ≠ "modified_at" → (d !! k = None ↔ it !! k = None)) ∧
    (∀ k v, it !! k = Some v → k ≠ "modified_at" →
            k ∉ encrypted_names (self st) → d !! k = Some v).
Proof.
  intros Hrun Hs.
  destruct (update_success _ _ _ _ Hrun Hs) as (it2 & st2 & b & md & Henc & _ & Hdata).
  apply encrypt_inv in Henc. cbn [self next_tick] in Henc.
  exists it2. split; [done|]. split.
  - intros k Hk. rewrite (encrypt_loop_keys _ _ _ _ _ k Henc).
    by rewrite lookup_insert_ne.
  - intros k v Hv Hk Hke. erewrite encrypt_loop_other by done.
    by rewrite lookup_insert_ne.
Qed.

End more_defaults.

(** ** Store requests and their report *)

Section store.
Context `{Platform}.

Lemma ddb_request_fault rq st f :
  pending_fault st = Some f →
  ∃ st', ddb_request rq st = (inl f, st') ∧
         requests st' = (requests st ++ [rq])%list ∧ table st' = table st ∧
         faults st' = tail (faults st) ∧ self st' = self st.
Proof.
  unfold pending_fault, ddb_request. intros Hf.
  destruct (faults st) as [|[f'|] rest]; try done. injection Hf as ->.
  by eexists.
Qed.

Lemma ddb_request_no_fault rq st :
  pending_fault st = None →
  ∃ st', ddb_request rq st
         = (match (ddb_execute rq (table st)).1 with
            | inl f => inl f
            | inr b => inr (Raw b (length (requests st)))
            end, st') ∧
         requests st' = (requests st ++ [rq])%list ∧
         table st' = (ddb_execute rq (table st)).2 ∧
         faults st' = tail (faults st) ∧ self st' = self st.
Proof.
  unfold pending_fault, ddb_request. intros Hf.
  destruct (faults st) as [|[f'|] rest]; try done;
    destruct (ddb_execute rq (table st)) as [res tbl]; by eexists.
Qed.

Lemma call_ddb_method_fault rq debug st f :
  pending_fault st = Some f →
  ∃ r st', CRUD._call_ddb_method rq (new_CRUDResponse debug) st = (Ret r, st') ∧
    fault_reported f r ∧ raw_response r = None ∧ resp_debug r = debug ∧
    requests st' = (requests st ++ [rq])%list ∧ table st' = table st ∧
    faults st' = tail (faults st).
Proof.
  intros (st' & Hrq & ? & ? & ? & ?)%(ddb_request_fault rq).
  destruct (call_ddb_method_refused rq debug st f st' Hrq) as (r & ? & ? & ? & ?).
  by exists r, st'.
Qed.

(** X11. when a fault awaits the next store request, list, get and delete
    (the latter two with an id) return an error envelope that carries the
    message, the code and the type of the fault as they came; the request
    was sent once and the table is as before. *)
Theorem store_fault_is_reported (c : call) op rq f st :
  direct_request c = Some (op, rq) →
  op ∈ supported_ops (self st) →
  pending_fault st = Some f →
  ∃ r st', invoke c st = (Ret r, st') ∧ fault_reported f r ∧
           requests st' = (requests st ++ [rq])%list ∧ table st' = table st.
Proof.
  intros Hc Hop Hf.
  destruct (call_ddb_method_fault rq (_debug (self st)) st f Hf)
    as (r & st' & Hcall & Hr & Hraw & Hdbg & Hreq & Htbl & _).
  assert ((status r =? "success") = false) as Hs.
  { destruct Hr as (-> & _). reflexivity. }
  assert (prepare r = r) as Hprep by (unfold prepare; by rewrite Hs).
  exists r, st'. split; [|done].
  destruct c as [| |id ?| | |id|]; try done; cbn in Hc.
  - injection Hc as <- <-. unfold invoke, CRUD.list.
    erewrite bind_run by apply new_response_run.
    erewrite bind_run by (by apply check_supported_op_true).
    cbn beta iota.
    erewrite bind_run; [|erewrite bind_run by apply Hcall; by rewrite Hs].
    unfold ret. by rewrite Hprep.
  - unfold invoke, CRUD.get.
    erewrite bind_run by apply new_response_run.
    destruct id; try done; injection Hc as <- <-;
      (erewrite bind_run by (by apply check_supported_op_true));
      cbn beta iota;
      (erewrite bind_run; [|erewrite bind_run by apply Hcall; by rewrite Hs]);
      unfold ret; by rewrite Hprep.
  - unfold invoke, CRUD.delete.
    erewrite bind_run by apply new_response_run.
    destruct id; try done; injection Hc as <- <-;
      (erewrite bind_run by (by apply check_supported_op_true));
      cbn beta iota;
      (erewrite bind_run by apply Hcall);
      unfold ret; by rewrite Hprep.
Qed.

End store.

(** ** Decimal-to-native conversion: the whole picture *)

Lemma sequence_list_cases {A B} (f : A → outcome B) (g : A → B) (p : A → bool) e
    (l : list A) :
  Forall (λ x, f x = if p x then Ret (g x) else Raise e) l →
  sequence_list (f <$> l) = if forallb p l then Ret (g <$> l) else Raise e.
Proof.
  unfold sequence_list. induction 1 as [|x l Hx _ IH]; [done|].
  cbn. rewrite Hx, IH. destruct (p x); [|done]. cbn. by destruct (forallb p l).
Qed.

Lemma sequence_map_cases {A B} (f : A → outcome B) (g : A → B) (p : A → bool) e
    (m : gmap string A) :
  map_Forall (λ _ x, f x = if p x then Ret (g x) else Raise e) m →
  sequence_map (f <$> m)
  = if map_fold (λ _ x acc, p x && acc) true m then Ret (g <$> m) else Raise e.
Proof.
  unfold sequence_map. rewrite map_fold_fmap.
  induction m as [|i x m Hi Hfirst IH] using map_first_key_ind.
  - intros _. by rewrite !map_fold_empty, fmap_empty.
  - intros [Hx Hm]%map_Forall_insert; [|done].
    rewrite !map_fold_insert_first_key by done. cbn.
    rewrite Hx, IH by done. destruct (p x); [|done]. cbn.
    destruct (map_fold _ true m); [|done]. cbn. by rewrite fmap_insert.
Qed.

Lemma map_fold_andb {A} (p : A → bool) (m : gmap string A) :
  map_fold (λ _ x acc, p x && acc) true m = true ↔
  map_Forall (λ _ x, p x = true) m.
Proof.
  induction m as [|i x m Hi Hfirst IH] using map_first_key_ind.
  - rewrite map_fold_empty. split; [intros _; apply map_Forall_empty|done].
  - rewrite map_fold_insert_first_key, map_Forall_insert by done.
    rewrite andb_true_iff. by rewrite IH.
Qed.

Section whole_picture.
Context `{Platform}.

Lemma replace_decimals_run v :
  CRUD._replace_decimals v
  = if within_precision v then Ret (native v) else Raise "InvalidOperation".
Proof.
  induction v as [| | | |d| |l IH|l _|m IH] using value_ind_nested; try done.
  - cbn. destruct (Z.abs (decimal_to_int d) <? 10 ^ context_prec)%Z eqn:Hd.
    + by rewrite decimal_mod_one_within.
    + by rewrite decimal_mod_one_beyond.
  - cbn. rewrite (sequence_list_cases _ native within_precision "InvalidOperation") by done.
    by destruct (forallb within_precision l).
  - cbn [CRUD._replace_decimals within_precision native].
    rewrite (sequence_map_cases _ native within_precision "InvalidOperation") by done.
    by destruct (map_fold _ true m).
Qed.

(** X12. [_replace_decimals] returns the converted value (lists and
    dictionaries traversed, whole decimals turned into integers, the other
    decimals into floats, everything else, sets included, as it was) if
    every decimal it reaches has an integer part of at most 28 digits, and
    raises InvalidOperation otherwise. *)
Theorem replace_decimals_cases v :
  CRUD._replace_decimals v
  = if within_precision v then Ret (native v) else Raise "InvalidOperation".
Proof. apply replace_decimals_run. Qed.

(** Values that come back from the table as they were written. *)
Lemma plain_round_trip v :
  plain v = true → CRUD._replace_decimals (as_stored v) = Ret v.
Proof.
  induction v as [| |n| | | |l IH|l _|m IH] using value_ind_nested; try done.
  - cbn [plain as_stored CRUD._replace_decimals]. intros Hn.
    assert (decimal_to_int (Dec n 0) = n) as Hint.
    { unfold decimal_to_int. cbn [dec_exp dec_coeff Z.leb Z.compare].
      change (10 ^ 0)%Z with 1%Z. lia. }
    rewrite decimal_mod_one_within by (by rewrite Hint).
    change (decimal_is_whole (Dec n 0)) with true.
    cbn -[decimal_to_int]. by rewrite Hint.
  - cbn. intros Hl. rewrite <- list_fmap_compose.
    rewrite (sequence_list_fmap _ id); [by rewrite list_fmap_id|].
    rewrite forallb_forall in Hl. rewrite Forall_forall in IH |- *.
    intros x Hx. apply IH; [done|]. apply Hl. by apply list_elem_of_In.
  - cbn [plain as_stored CRUD._replace_decimals]. intros Hm%map_fold_andb.
    rewrite <- map_fmap_compose.
    rewrite (sequence_map_fmap _ id); [by rewrite map_fmap_id|].
    intros k x Hx. apply (IH k x Hx). by apply (Hm k x).
Qed.

End whole_picture.

(** ** Writes and the table *)

Lemma bind_inv {A B} (m : M A) (k : A → M B) st o st' :
  bind m k st = (o, st') →
  (∃ a st1, m st = (Ret a, st1) ∧ k a st1 = (o, st')) ∨
  (∃ e, m st = (Raise e, st') ∧ o = Raise e).
Proof.
  unfold bind. destruct (m st) as [[a|e] st1]; [eauto|].
  intros [= <- <-]. eauto.
Qed.

Lemma settles_preserves m : preserves table m → settles m.
Proof. intros Hm st o st' Hrun. left. by eapply Hm. Qed.

Lemma settles_bind {A} (m : M A) k :
  preserves table m → (∀ a, settles (k a)) → settles (bind m k).
Proof.
  intros Hm Hk st o st' [(a & st1 & Hrun & Hrest)|(e & Hrun & ->)]%bind_inv.
  - apply Hm in Hrun. apply Hk in Hrest. by rewrite <- Hrun.
  - left. by eapply Hm.
Qed.

Lemma settles_prepare m :
  settles m → settles (bind m (λ r, ret (prepare r))).
Proof.
  intros Hm st o st' [(a & st1 & Hrun & Hrest)|(e & Hrun & ->)]%bind_inv.
  - unfold ret in Hrest. injection Hrest as <- <-.
    apply Hm in Hrun as [?|(r & [= <-] & Hs)]; [by left|right].
    exists (prepare a). split; [done|].
    by destruct (prepare_fields a) as (-> & _).
  - apply Hm in Hrun as [?|(r & ? & _)]; [by left|done].
Qed.

Section writes.
Context `{Platform}.

Lemma settles_call rq r :
  status r = "success" → settles (CRUD._call_ddb_method rq r).
Proof.
  intros Hs st o st'. unfold CRUD._call_ddb_method, ddb_request.
  destruct (faults st) as [|[f|] rest];
    destruct (ddb_execute rq (table st)) as [[f'|b] tbl] eqn:Hex;
    try destruct f; try destruct f'; intros [= <- <-]; cbn;
    try (by left); try (by right; eexists).
  all: left; by apply ddb_execute_refused in Hex.
Qed.

Lemma settles_put it r :
  status r = "success" →
  settles (response <~ CRUD._call_ddb_method (PutItem it) r ;;
           if String.eqb (status response) "success"
           then ret (set_data response (VDict it)) else ret response).
Proof.
  intros Hs st o st' [(a & st1 & Hrun & Hrest)|(e & Hrun & ->)]%bind_inv.
  - apply (settles_call _ _ Hs) in Hrun as [?|(r' & [= <-] & Hs')].
    + left. destruct (status a =? "success");
        unfold ret in Hrest; by simplify_eq.
    + rewrite Hs' in Hrest. unfold ret in Hrest. cbn in Hrest.
      injection Hrest as <- <-. right. eexists. split; [done|]. exact Hs'.
  - destruct (call_ddb_method_returns (PutItem it) r st) as (? & ? & ?).
    congruence.
Qed.

Lemma preserves_table_encrypt it : preserves table (CRUD._encrypt it).
Proof. unfold CRUD._encrypt. frame ltac:(apply preserves_table_kms_encrypt). Qed.

Lemma preserves_table_handle_defaults it r :
  preserves table (CRUD._handle_defaults it r).
Proof. unfold CRUD._handle_defaults. frame ltac:(apply preserves_table_check). Qed.

(** The frame of the six operations, for a body that settles. *)
Lemma settles_operation op (body : CRUDResponse → M CRUDResponse) :
  (∀ debug, settles (body (new_CRUDResponse debug))) →
  settles (response <~ CRUD._new_response ;;
           chk <~ CRUD._check_supported_op op response ;;
           let '(supported, response) := chk in
           response <~ (if supported then body response else ret response) ;;
           ret (prepare response)).
Proof.
  intros Hbody st o st'.
  erewrite bind_run by apply new_response_run.
  destruct (decide (op ∈ supported_ops (self st))).
  - erewrite bind_run by (by apply check_supported_op_true). cbn beta iota.
    apply settles_prepare, Hbody.
  - erewrite bind_run by (by apply check_supported_op_false). cbn beta iota.
    apply settles_prepare, settles_preserves, preserves_ret.
Qed.

Lemma settles_create payload : settles (CRUD.create payload).
Proof.
  apply (settles_operation "create"
    (λ response,
       match payload with
       | VDict it =>
           it <~ CRUD._handle_defaults it response ;;
           match it !! "created_at" with
           | None => raise "KeyError"
           | Some created_at =>
               it <~ CRUD._encrypt (<["modified_at" := created_at]> it) ;;
               response <~ CRUD._call_ddb_method (PutItem it) response ;;
               if String.eqb (status response) "success" then
                 ret (set_data response (VDict it))
               else ret response
           end
       | _ => raise "AttributeError"
       end)).
  intros debug. destruct payload;
    try (apply settles_preserves, preserves_raise).
  apply settles_bind; [apply preserves_table_handle_defaults|]. intros it.
  destruct (it !! "created_at"); [|apply settles_preserves, preserves_raise].
  apply settles_bind; [apply preserves_table_encrypt|]. intros it'.
  by apply settles_put.
Qed.

Lemma settles_update payload : settles (CRUD.update payload).
Proof.
  apply (settles_operation "update"
    (λ response,
       now <~ Tokens.check (VStr "<timestamp>") ;;
       match payload with
       | VDict it =>
           it <~ CRUD._encrypt (<["modified_at" := now]> it) ;;
           response <~ CRUD._call_ddb_method (PutItem it) response ;;
           if String.eqb (status response) "success" then
             ret (set_data response (VDict it))
           else ret response
       | _ => raise "TypeError"
       end)).
  intros debug. apply settles_bind; [apply preserves_table_check|]. intros now.
  destruct payload; try (apply settles_preserves, preserves_raise).
  apply settles_bind; [apply preserves_table_encrypt|]. intros it'.
  by apply settles_put.
Qed.

Lemma settles_delete id : settles (CRUD.delete id).
Proof.
  apply (settles_operation "delete"
    (λ response,
       match id with
       | VNone => ret (report response "IDRequired" "Delete requires an id")
       | _ => CRUD._call_ddb_method (DeleteItem id) response
       end)).
  intros debug. destruct id;
    try (by apply settles_call); apply settles_preserves, preserves_ret.
Qed.

Lemma settles_direct (c : call) :
  (∀ payload operation, c ≠ CallHandler payload operation) → settles (invoke c).
Proof.
  intros Hc. destruct c as [q| |id decrypt|payload|payload|id|payload operation].
  - apply settles_preserves, (preserves_table_reads (CallQuery q) eq_refl).
  - apply settles_preserves, (preserves_table_reads CallList eq_refl).
  - apply settles_preserves, (preserves_table_reads (CallGet id decrypt) eq_refl).
  - apply settles_create.
  - apply settles_update.
  - apply settles_delete.
  - by destruct (Hc payload operation).
Qed.

Lemma settles_handler payload operation : settles (CRUD.handler payload operation).
Proof.
  unfold CRUD.handler.
  apply settles_bind; [apply preserves_bind; [apply preserves_gets|intros; apply preserves_ret]|].
  intros r.
  apply settles_bind.
  { unfold CRUD._check_supported_op. frame fail. }
  intros chk. repeat case_match;
    try (apply settles_preserves, preserves_ret);
    try (apply settles_bind; [apply preserves_lift|intros ?]).
  - apply (settles_direct CallList). done.
  - apply (settles_direct (CallGet _ _)). done.
  - apply settles_create.
  - apply settles_update.
  - apply settles_delete.
  - apply (settles_direct (CallQuery _)). done.
Qed.

(** X13. a call that raises, or that returns an error envelope, leaves
    the table as it was. *)
Theorem table_changes_only_on_success (c : call) st o st' :
  invoke c st = (o, st') →
  (∀ r, o = Ret r → status r = "error") →
  table st' = table st.
Proof.
  intros Hrun Herr.
  assert (settles (invoke c)) as Hc.
  { destruct c; try (by apply settles_direct). apply settles_handler. }
  apply Hc in Hrun as [?|(r & -> & Hs)]; [done|].
  rewrite (Herr r eq_refl) in Hs. discriminate.
Qed.

Lemma create_needs_dict payload st r st' :
  CRUD.create payload st = (Ret r, st') → status r = "success" →
  ∃ it, payload = VDict it.
Proof.
  intros Hrun Hs. destruct payload; try (by eexists); exfalso.
  all: unfold CRUD.create in Hrun.
  all: apply bind_Ret in Hrun as (? & ? & [= <- <-] & Hrun).
  all: apply bind_Ret in Hrun as ([[] ?] & ? & [-> Hchk]%check_supported_op_cases & Hrun).
  all: apply bind_Ret in Hrun as (? & ? & Hbody & Hrun).
  all: unfold ret, raise in *; simplify_eq.
  all: destruct Hchk as [[_ ?]|[_ ?]]; simplify_eq.
  all: match type of Hs with status (prepare ?x) = _ =>
         destruct (prepare_fields x) as (Hp & _); rewrite Hp in Hs end.
  all: discriminate.
Qed.

Lemma update_needs_dict payload st r st' :
  CRUD.update payload st = (Ret r, st') → status r = "success" →
  ∃ it, payload = VDict it.
Proof.
  intros Hrun Hs. destruct payload; try (by eexists); exfalso.
  all: unfold CRUD.update in Hrun.
  all: apply bind_Ret in Hrun as (? & ? & [= <- <-] & Hrun).
  all: apply bind_Ret in Hrun as ([[] ?] & ? & [-> Hchk]%check_supported_op_cases & Hrun).
  all: apply bind_Ret in Hrun as (? & ? & Hbody & Hrun).
  all: try (apply bind_Ret in Hbody as (? & ? & _ & Hbody)).
  all: unfold ret, raise in *; simplify_eq.
  all: destruct Hchk as [[_ ?]|[_ ?]]; simplify_eq.
  all: match type of Hs with status (prepare ?x) = _ =>
         destruct (prepare_fields x) as (Hp & _); rewrite Hp in Hs end.
  all: discriminate.
Qed.

Lemma write_success (c : call) st r st' :
  is_write c = true →
  invoke c st = (Ret r, st') → status r = "success" →
  ∃ d k, data r = VDict d ∧ d !! "id" = Some (VStr k) ∧ k ≠ EmptyString ∧
         table st' = <[k := as_stored <$> d]> (table st).
Proof.
  intros Hc Hrun Hs. destruct c as [| | |payload|payload| |]; try done;
    unfold invoke in Hrun.
  - destruct (create_needs_dict _ _ _ _ Hrun Hs) as (it & ->).
    apply create_success in Hrun
      as (it1 & st1 & created_at & it2 & st2 & b & md & Hd & _ & He & Hput & Hdata);
      [|done].
    apply handle_defaults_inv in Hd as ((_ & Ht1 & _) & _).
    apply encrypt_inv, encrypt_loop_advances in He as (_ & Ht2 & _).
    pose proof (put_item_key _ _ _ _ _ Hput) as Hne.
    apply put_item_success in Hput as (k & Hid & Ht & _).
    exists it2, k. rewrite Ht, Ht2, Ht1. split_and!; try done.
    intros ->. by rewrite Hid in Hne.
  - destruct (update_needs_dict _ _ _ _ Hrun Hs) as (it & ->).
    apply update_success in Hrun as (it2 & st2 & b & md & He & Hput & Hdata);
      [|done].
    apply encrypt_inv, encrypt_loop_advances in He as (_ & Ht2 & _).
    pose proof (put_item_key _ _ _ _ _ Hput) as Hne.
    apply put_item_success in Hput as (k & Hid & Ht & _).
    exists it2, k. rewrite Ht, Ht2. split_and!; try done.
    intros ->. by rewrite Hid in Hne.
Qed.

(** X14. a create or an update that returns a success envelope has put
    the returned data, and nothing else, in the table: the item under the
    returned id is the returned data as the table stores it, and every
    other item is as before. *)
Theorem write_stores_returned_data (c : call) st r st' :
  is_write c = true →
  invoke c st = (Ret r, st') → status r = "success" →
  ∃ d k, data r = VDict d ∧ d !! "id" = Some (VStr k) ∧
         table st' !! k = Some (as_stored <$> d) ∧
         ∀ k', k' ≠ k → table st' !! k' = table st !! k'.
Proof.
  intros Hc Hrun Hs.
  destruct (write_success c st r st' Hc Hrun Hs) as (d & k & Hd & Hid & _ & Ht).
  exists d, k. rewrite Ht. split_and!; [done|done|by rewrite lookup_insert_eq|].
  intros k' Hk. by rewrite lookup_insert_ne.
Qed.

Lemma plain_dict_round_trip (d : item) :
  plain (VDict d) = true →
  CRUD._replace_decimals (VDict (as_stored <$> d)) = Ret (VDict d).
Proof. apply (plain_round_trip (VDict d)). Qed.

(** What [get] without decryption does with an item that is there. *)
Lemma get_found k stored v st :
  "get" ∈ supported_ops (self st) → pending_fault st = None →
  k ≠ EmptyString →
  table st !! k = Some stored →
  CRUD._replace_decimals (VDict stored) = Ret v →
  ∃ r st', CRUD.get (VStr k) false st = (Ret r, st') ∧
           status r = "success" ∧ data r = v ∧ table st' = table st.
Proof.
  intros Hop Hf Hne Hk Hv.
  destruct (ddb_request_no_fault (GetItem (VStr k) true) st Hf)
    as (st' & Hrq & _ & Ht & _).
  assert (ddb_execute (GetItem (VStr k) true) (table st)
          = (inr (BodyItem (Some stored)), table st)) as Hex.
  { unfold ddb_execute, serialised. cbn. rewrite <- Hk. by destruct k. }
  rewrite Hex in Hrq, Ht. cbn in Hrq, Ht.
  eexists _, st'. unfold CRUD.get.
  erewrite bind_run by apply new_response_run.
  erewrite bind_run by (by apply check_supported_op_true). cbn beta iota.
  erewrite bind_run.
  2:{ erewrite bind_run by (unfold CRUD._call_ddb_method; by rewrite Hrq).
      cbn. cbn in Hv. rewrite Hv. reflexivity. }
  unfold ret. split; [reflexivity|].
  match goal with |- context [prepare ?x] =>
    destruct (prepare_fields x) as (-> & -> & _) end.
  done.
Qed.

(** X15. after a create or an update that returned a success envelope
    whose data the table gives back as written, a get of the returned id
    (without decryption, allowed, the store answering) returns a success
    envelope with the same data. *)
Theorem write_then_get_round_trip (c : call) st r st' :
  is_write c = true →
  invoke c st = (Ret r, st') → status r = "success" →
  plain (data r) = true →
  "get" ∈ supported_ops (self st') → pending_fault st' = None →
  ∃ d k r' st'', data r = VDict d ∧ d !! "id" = Some (VStr k) ∧
    CRUD.get (VStr k) false st' = (Ret r', st'') ∧
    status r' = "success" ∧ data r' = data r.
Proof.
  intros Hc Hrun Hs Hplain Hop Hf.
  destruct (write_success c st r st' Hc Hrun Hs) as (d & k & Hd & Hid & Hne & Ht).
  rewrite Hd in Hplain.
  destruct (get_found k (as_stored <$> d) (VDict d) st' Hop Hf Hne)
    as (r' & st'' & Hget & Hs' & Hd' & _).
  { by rewrite Ht, lookup_insert_eq. }
  { by apply plain_dict_round_trip. }
  exists d, k, r', st''. by rewrite Hd.
Qed.

(** X16. when delete is allowed and the store accepts the DeleteItem
    request for a string id, delete returns a success envelope without
    data, whether or not the item was there; that one request was sent,
    the item is gone and the other items are as before. *)
Theorem delete_removes_item k st b md st' :
  "delete" ∈ supported_ops (self st) →
  ddb_request (DeleteItem (VStr k)) st = (inr (Raw b md), st') →
  ∃ r, CRUD.delete (VStr k) st = (Ret r, st') ∧
       status r = "success" ∧ data r = VNone ∧
       requests st' = (requests st ++ [DeleteItem (VStr k)])%list ∧
       table st' !! k = None ∧
       ∀ k', k' ≠ k → table st' !! k' = table st !! k'.
Proof.
  intros Hop Hrq.
  pose proof (ddb_request_logged _ _ _ _ Hrq) as (Hlog & _).
  pose proof (ddb_request_answered _ _ _ _ _ Hrq) as (Hex & _).
  assert (table st' = delete k (table st)) as Ht.
  { unfold ddb_execute in Hex. destruct (serialised _ _); [done|].
    destruct (as_key (VStr k)) as [k0|] eqn:Hk; [|done].
    apply as_key_Some in Hk as [[= <-] _]. by simplify_eq. }
  eexists. unfold CRUD.delete.
  erewrite bind_run by apply new_response_run.
  erewrite bind_run by (by apply check_supported_op_true). cbn beta iota.
  erewrite bind_run by (unfold CRUD._call_ddb_method; by rewrite Hrq).
  unfold ret. split; [reflexivity|].
  match goal with |- context [prepare ?x] =>
    destruct (prepare_fields x) as (-> & -> & _) end.
  rewrite Ht. split_and!; try done; [by rewrite lookup_delete_eq|].
  intros k' Hk'. by rewrite lookup_delete_ne.
Qed.

End writes.

(** ** What list and query return *)

Lemma split_on_absent c s : contains_char c s = false → split_on c s = [s].
Proof.
  induction s as [|a s IH]; [done|]. cbn.
  destruct (Ascii.eqb a c); [done|]. cbn. intros Hs. by rewrite IH.
Qed.

Lemma split_on_pair c key val :
  contains_char c key = false → contains_char c val = false →
  split_on c (key ++ String c val) = [key; val].
Proof.
  intros Hk Hv. induction key as [|a key IH].
  - change (split_on c (String c val) = [EmptyString; val]). cbn.
    by rewrite Ascii.eqb_refl, split_on_absent.
  - change (String a key ++ String c val) with (String a (key ++ String c val)).
    cbn in Hk |- *. destruct (Ascii.eqb a c); [done|]. cbn in Hk.
    by rewrite IH.
Qed.

Lemma contains_char_app c key val :
  contains_char c (key ++ String c val) = true.
Proof.
  induction key as [|a key IH].
  - change (contains_char c (String c val) = true). cbn.
    by rewrite Ascii.eqb_refl.
  - change (String a key ++ String c val) with (String a (key ++ String c val)).
    cbn. rewrite IH. by destruct (Ascii.eqb a c).
Qed.

Lemma bind_outcome {A B} (m : M A) (k : A → M B) st o st1 :
  m st = (o, st1) →
  bind m k st = match o with Ret a => k a st1 | Raise e => (Raise e, st1) end.
Proof. unfold bind. by intros ->. Qed.

Section reads.
Context `{Platform}.

(** The rows of a successful scan or query, converted. *)
Lemma rows_converted rq rows md st st' :
  ddb_request rq st = (inr (Raw (BodyItems rows) md), st') →
  (response <~ CRUD._call_ddb_method rq (new_CRUDResponse (_debug (self st))) ;;
   if String.eqb (status response) "success" then
     match raw_response response with
     | Some (Raw (BodyItems items) _) =>
         v <~ lift (CRUD._replace_decimals (VList (VDict <$> items))) ;;
         ret (set_data response v)
     | Some _ => raise "KeyError"
     | None => raise "TypeError"
     end
   else ret response) st
  = (outcome_map
       (set_data (set_raw_response (new_CRUDResponse (_debug (self st)))
                    (Raw (BodyItems rows) md)))
       (CRUD._replace_decimals (VList (VDict <$> rows))), st').
Proof.
  intros Hrq.
  erewrite bind_run by (unfold CRUD._call_ddb_method; by rewrite Hrq).
  cbn [status set_raw_response new_CRUDResponse raw_response].
  change ("success" =? "success") with true. cbn beta iota.
  unfold bind, lift, ret.
  by destruct (CRUD._replace_decimals (VList (VDict <$> rows))).
Qed.

(** A request that the store refuses, in the operations that read. *)
Lemma rows_refused rq f st st' :
  ddb_request rq st = (inl f, st') →
  ∃ r, fault_reported f r ∧
  (response <~ CRUD._call_ddb_method rq (new_CRUDResponse (_debug (self st))) ;;
   if String.eqb (status response) "success" then
     match raw_response response with
     | Some (Raw (BodyItems items) _) =>
         v <~ lift (CRUD._replace_decimals (VList (VDict <$> items))) ;;
         ret (set_data response v)
     | Some _ => raise "KeyError"
     | None => raise "TypeError"
     end
   else ret response) st = (Ret r, st').
Proof.
  intros Hrq.
  destruct (call_ddb_method_refused rq (_debug (self st)) st f st' Hrq)
    as (r & Hcall & Hr & _).
  exists r. split; [done|].
  erewrite bind_run by apply Hcall. destruct Hr as (-> & _). reflexivity.
Qed.

(** X17. list, allowed and with the store answering, sends one Scan
    request and leaves the table alone.  If every number in the table has
    an integer part of at most 28 digits it returns a success envelope
    whose data is the list of all items, converted; otherwise it raises
    InvalidOperation. *)
Theorem list_returns_scan st :
  "list" ∈ supported_ops (self st) → pending_fault st = None →
  ∃ st', requests st' = (requests st ++ [Scan])%list ∧ table st' = table st ∧
    if within_precision (VList (scanned st)) then
      ∃ r, CRUD.list st = (Ret r, st') ∧ status r = "success" ∧
           data r = native (VList (scanned st))
    else CRUD.list st = (Raise "InvalidOperation", st').
Proof.
  intros Hop Hf.
  destruct (ddb_request_no_fault Scan st Hf) as (st' & Hrq & Hlog & Ht & _).
  cbn in Hrq, Ht. exists st'. split_and!; [done|done|].
  unfold CRUD.list.
  erewrite bind_run by apply new_response_run.
  erewrite bind_run by (by apply check_supported_op_true). cbn beta iota.
  erewrite bind_outcome by (by apply rows_converted).
  change (VList (VDict <$> (map_to_list (table st)).*2))
    with (VList (scanned st)).
  rewrite replace_decimals_run.
  destruct (within_precision (VList (scanned st))); [|done].
  eexists. split; [reflexivity|].
  match goal with |- context [prepare ?x] =>
    destruct (prepare_fields x) as (-> & -> & _) end.
  done.
Qed.

(** X18. a query for [key=val], where neither side holds an equals sign
    and the attribute [key] has an index, when allowed, sends one Query
    request on that index with [val] as a string.  When the store answers
    it with items, query returns a success envelope whose data is these
    items, converted, if every number in them has an integer part of at
    most 28 digits, and raises InvalidOperation otherwise. *)
Theorem query_returns_converted_items key val index_name st items md st' :
  "query" ∈ supported_ops (self st) →
  contains_char "=" key = false → contains_char "=" val = false →
  _indexes (self st) !! key = Some index_name →
  ddb_request (Query key val index_name) st = (inr (Raw (BodyItems items) md), st') →
  requests st' = (requests st ++ [Query key val index_name])%list ∧
  if within_precision (VList (VDict <$> items)) then
    ∃ r, CRUD.query (VStr (key ++ "=" ++ val)) st = (Ret r, st') ∧
         status r = "success" ∧
         data r = native (VList (VDict <$> items))
  else CRUD.query (VStr (key ++ "=" ++ val)) st = (Raise "InvalidOperation", st').
Proof.
  intros Hop Hk Hv Hidx Hrq.
  pose proof (ddb_request_logged _ _ _ _ Hrq) as (Hlog & _).
  split; [done|].
  change (key ++ "=" ++ val) with (key ++ String "=" val).
  unfold CRUD.query.
  erewrite bind_run by apply new_response_run.
  erewrite bind_run by (by apply check_supported_op_true). cbn beta iota.
  erewrite (bind_outcome _ _ st).
  2:{ erewrite bind_run
        by (unfold lift, contains_equals; by rewrite contains_char_app).
      cbn [negb]. cbn beta iota.
      erewrite bind_run
        by (unfold lift, split_key_value; by rewrite split_on_pair).
      cbn beta iota. erewrite bind_run by reflexivity. rewrite Hidx.
      by apply rows_converted. }
  rewrite replace_decimals_run.
  destruct (within_precision (VList (VDict <$> items))); [|done].
  eexists. split; [reflexivity|].
  match goal with |- context [prepare ?x] =>
    destruct (prepare_fields x) as (-> & -> & _) end.
  done.
Qed.

End reads.

(** ** The query operation *)

Lemma bind_cong {A B} (m m' : M A) (k : A → M B) st :
  m st = m' st → bind m k st = bind m' k st.
Proof. unfold bind. by intros ->. Qed.

Section query.
Context `{Platform}.

Lemma query_answered attr val index_name st b md st' :
  ddb_request (Query attr val index_name) st = (inr (Raw b md), st') →
  ∃ items, b = BodyItems items.
Proof.
  intros (Hex & _)%ddb_request_answered. unfold ddb_execute in Hex.
  destruct (val =? EmptyString); simplify_eq. by eexists.
Qed.

(** What [query] does once the string is taken apart. *)
Lemma query_run s val index_name st :
  "query" ∈ supported_ops (self st) →
  split_on "=" s = [query_attribute s; val] →
  contains_char "=" s = true →
  _indexes (self st) !! query_attribute s = Some index_name →
  CRUD.query (VStr s) st
  = (response <~
       (response <~ CRUD._call_ddb_method (Query (query_attribute s) val index_name)
                      (new_CRUDResponse (_debug (self st))) ;;
        if String.eqb (status response) "success" then
          match raw_response response with
          | Some (Raw (BodyItems items) _) =>
              v <~ lift (CRUD._replace_decimals (VList (VDict <$> items))) ;;
              ret (set_data response v)
          | Some _ => raise "KeyError"
          | None => raise "TypeError"
          end
        else ret response) ;;
     ret (prepare response)) st.
Proof.
  intros Hop Hsplit Hc Hidx. unfold CRUD.query.
  erewrite bind_run by apply new_response_run.
  erewrite bind_run by (by apply check_supported_op_true). cbn beta iota.
  apply bind_cong.
  erewrite bind_run by (unfold lift, contains_equals; by rewrite Hc).
  cbn [negb]. cbn beta iota.
  erewrite bind_run by (unfold lift, split_key_value; by rewrite Hsplit).
  cbn beta iota. erewrite bind_run by reflexivity. by rewrite Hidx.
Qed.

(** C2 (amended). When query is in the allow-list and the query string
    has at most one '=': the operation returns an InvalidQuery error
    envelope without issuing a store request exactly when the string
    contains no '=' or the attribute left of '=' is not in the index map.
    Otherwise it issues exactly one Query request, on the index of the
    attribute and for the text right of '=': when the store fails the
    request, the envelope returned is an error envelope with the message,
    code and type of the failure; when the store answers with items, the
    envelope returned is a success envelope whose data is the items with
    their decimals converted, unless a number among them has an integer
    part of more than 28 digits, and then query raises InvalidOperation. *)
Theorem query_validation st s o st' :
  "query" ∈ supported_ops (self st) →
  (occurrences "=" s ≤ 1)%nat →
  CRUD.query (VStr s) st = (o, st') →
  ((contains_char "=" s = false ∨ _indexes (self st) !! query_attribute s = None)
   ↔ (requests st' = requests st ∧ ∃ r, o = Ret r ∧ is_error "InvalidQuery" r)) ∧
  (∀ index_name,
     contains_char "=" s = true →
     _indexes (self st) !! query_attribute s = Some index_name →
     let rq := Query (query_attribute s) (query_value s) index_name in
     requests st' = (requests st ++ [rq])%list ∧
     (∀ f st1, ddb_request rq st = (inl f, st1) →
        ∃ r, o = Ret r ∧ fault_reported f r) ∧
     (∀ items md st1,
        ddb_request rq st = (inr (Raw (BodyItems items) md), st1) →
        if within_precision (VList (VDict <$> items)) then
          ∃ r, o = Ret r ∧ status r = "success" ∧
               data r = native (VList (VDict <$> items))
        else o = Raise "InvalidOperation")).
Proof.
  intros Hop Hn Hrun. split.
  - revert Hrun. unfold CRUD.query.
    erewrite bind_run by apply new_response_run.
    erewrite bind_run by (by apply check_supported_op_true).
    cbn -[split_on]. unfold bind at 1 2. cbn -[split_on].
    destruct (contains_char "=" s) eqn:Hc; cbn -[split_on].
    + destruct (split_on_one _ _ Hc Hn) as [val Hsplit].
      unfold query_attribute. rewrite Hsplit. cbn.
      unfold bind at 1. cbn.
      destruct (_indexes (self st) !! hd EmptyString (split_on "=" s)) as [idx|] eqn:Hidx; cbn.
      * unfold bind at 1.
        destruct (CRUD._call_ddb_method _ _ st) as [[r1|e] st1] eqn:Hcall; cycle 1.
        { destruct (call_ddb_method_returns
                      (Query (hd EmptyString (split_on "=" s)) val idx)
                      (new_CRUDResponse (_debug (self st))) st) as (? & ? & ?).
          congruence. }
        apply call_ddb_method_logged in Hcall as (Hlog & _).
        intros Hrun. split; [by intros [?|?]|]. intros [Hreq _]. exfalso.
        assert (requests st' = requests st1) as Hsame.
        { unfold lift, raise, ret in Hrun.
          repeat case_match; by simplify_eq/=. }
        rewrite Hsame, Hlog in Hreq.
        apply (f_equal length) in Hreq. rewrite length_app in Hreq. cbn in Hreq. lia.
      * intros [= <- <-]. split; [|by auto]. intros _. split; [done|]. by eexists.
    + intros [= <- <-]. split; [|by auto]. intros _. split; [done|]. by eexists.
  - intros index_name Hc Hidx rq.
    destruct (split_on_one _ _ Hc Hn) as [val Hsplit].
    assert (query_value s = val) as Hval.
    { unfold query_value. by rewrite Hsplit. }
    assert (split_on "=" s = [query_attribute s; val]) as Hsplit'.
    { unfold query_attribute. by rewrite Hsplit at 1. }
    subst rq. rewrite Hval.
    rewrite (query_run s val index_name st Hop Hsplit' Hc Hidx) in Hrun.
    destruct (ddb_request (Query (query_attribute s) val index_name) st)
      as [[f|[b md]] st1] eqn:Hrq.
    + pose proof (ddb_request_logged _ _ _ _ Hrq) as (Hlog & _).
      destruct (rows_refused _ _ _ _ Hrq) as (r & Hr & Hbody).
      erewrite bind_run in Hrun by apply Hbody.
      unfold ret in Hrun. injection Hrun as <- <-.
      assert (prepare r = r) as ->.
      { unfold prepare. by destruct Hr as (-> & _). }
      split_and!; [done| |done].
      intros f' st1' [= <- <-]. by exists r.
    + pose proof (ddb_request_logged _ _ _ _ Hrq) as (Hlog & _).
      destruct (query_answered _ _ _ _ _ _ _ Hrq) as (items & ->).
      erewrite bind_outcome in Hrun by (by apply rows_converted).
      rewrite replace_decimals_run in Hrun.
      split_and!; [| done |].
      * destruct (within_precision (VList (VDict <$> items)));
          cbn [outcome_map] in Hrun; unfold ret in Hrun; by simplify_eq.
      * intros items' md' st1' [= <- <- <-].
        destruct (within_precision (VList (VDict <$> items)));
          cbn [outcome_map] in Hrun; unfold ret in Hrun; simplify_eq; [|done].
        eexists. split; [done|].
        match goal with |- context [prepare ?x] =>
          destruct (prepare_fields x) as (-> & -> & _) end.
        done.
Qed.

End query.

(** ** The dispatcher *)

Lemma lower_char_idemp c : lower_char (lower_char c) = lower_char c.
Proof. by destruct c as [[] [] [] [] [] [] [] []]. Qed.

Lemma lower_idemp s : lower (lower s) = lower s.
Proof. induction s as [|a s IH]; [done|]. cbn. by rewrite lower_char_idemp, IH. Qed.

Section dispatcher.
Context `{Platform}.

Lemma handler_allowed payload operation st :
  lower operation ∈ supported_ops (self st) →
  CRUD.handler payload operation st
  = (let operation := lower operation in
     if String.eqb operation "list" then CRUD.list
     else if String.eqb operation "get" then
       id <~ lift (subscript_id payload) ;; CRUD.get id false
     else if String.eqb operation "create" then CRUD.create payload
     else if String.eqb operation "update" then CRUD.update payload
     else if String.eqb operation "delete" then
       id <~ lift (subscript_id payload) ;; CRUD.delete id
     else if String.eqb operation "query" then CRUD.query payload
     else ret (new_CRUDResponse (_debug (self st)))) st.
Proof.
  intros Hop. unfold CRUD.handler.
  erewrite bind_run by apply new_response_run.
  erewrite bind_run by (by apply check_supported_op_true).
  reflexivity.
Qed.

(** X19. for an allowed operation name the dispatcher returns what the
    direct call returns, and leaves the state that the direct call
    leaves: list for list, create, update and query with the payload, get
    and delete with the payload's id, get always without decryption. *)
Theorem handler_routes payload operation (c : call) st :
  lower operation ∈ supported_ops (self st) →
  route payload (lower operation) = Some c →
  CRUD.handler payload operation st = invoke c st.
Proof.
  intros Hop Hc. rewrite handler_allowed by done. cbn zeta.
  unfold route in Hc.
  repeat (destruct (String.eqb (lower operation) _);
          [try by simplify_eq|]); [..|done].
  all: destruct (subscript_id payload); by simplify_eq.
Qed.

(** X20. for an operation name that is in the allow-list but is none of
    the six operations, the dispatcher returns a new success envelope
    without data; it sends nothing and changes nothing. *)
Theorem handler_unknown_allowed_operation payload operation st :
  lower operation ∈ supported_ops (self st) →
  (lower operation ∉ SupportedOps) →
  CRUD.handler payload operation st
  = (Ret (new_CRUDResponse (_debug (self st))), st).
Proof.
  intros Hop Hun. rewrite handler_allowed by done. cbn zeta.
  repeat match goal with
  | |- context [String.eqb (lower operation) ?name] =>
      destruct (String.eqb_spec (lower operation) name) as [Heq|_];
        [exfalso; apply Hun; rewrite Heq;
         apply (bool_decide_unpack _); vm_compute; exact I|]
  end.
  reflexivity.
Qed.

(** X21. for get and delete, allowed, the dispatcher raises KeyError on a
    dictionary without the key id; it sends nothing and changes nothing. *)
Theorem handler_raises_without_id (m : item) operation st :
  lower operation ∈ supported_ops (self st) →
  lower operation = "get" ∨ lower operation = "delete" →
  m !! "id" = None →
  CRUD.handler (VDict m) operation st = (Raise "KeyError", st).
Proof.
  intros Hop Hname Hid. rewrite handler_allowed by done. cbn zeta.
  destruct Hname as [-> | ->]; cbn [String.eqb Ascii.eqb Bool.eqb];
    unfold subscript_id; by rewrite Hid.
Qed.

(** X22. the dispatcher does not tell an operation name from its lower
    case. *)
Theorem handler_ignores_case payload operation st :
  CRUD.handler payload (lower operation) st = CRUD.handler payload operation st.
Proof. unfold CRUD.handler. by rewrite lower_idemp. Qed.

End dispatcher.

(** ** The raw response in the envelope *)

Lemma unprepared_new debug : unprepared debug (new_CRUDResponse debug).
Proof. done. Qed.

Lemma prepare_prepared debug r : unprepared debug r → prepared debug (prepare r).
Proof.
  unfold unprepared, prepared. intros (<- & Hmd) Hs.
  destruct (prepare_fields r) as (Hps & _). rewrite Hps in Hs.
  unfold prepare. rewrite Hs. cbn.
  destruct (raw_response r) eqn:Hraw, (resp_debug r) eqn:Hd; cbn;
    by rewrite ?Hd.
Qed.

Section shape.
Context `{Platform}.

Lemma call_ddb_method_unprepared rq debug r st r' st' :
  CRUD._call_ddb_method rq r st = (Ret r', st') →
  unprepared debug r → unprepared debug r'.
Proof.
  unfold CRUD._call_ddb_method, unprepared. intros Hrun Hr.
  destruct (ddb_request rq st) as [[[]|] ?]; by simplify_eq.
Qed.

Ltac enter Hrun :=
  let Hchk := fresh "Hchk" in
  let Hbody := fresh "Hbody" in
  apply bind_Ret in Hrun as (? & ? & [= <- <-] & Hrun);
  apply bind_Ret in Hrun as ([] & ? & [-> Hchk]%check_supported_op_cases & Hrun);
  apply bind_Ret in Hrun as (? & ? & Hbody & Hrun);
  unfold ret in Hrun; injection Hrun as <- <-;
  apply prepare_prepared;
  destruct Hchk as [[? [= -> ->]]|[? [= -> ->]]];
  [|unfold ret in Hbody; by injection Hbody as <- <-].

Ltac close :=
  try done;
  try match goal with
  | Hc : CRUD._call_ddb_method _ _ ?st = _ |- unprepared ?d _ =>
      apply (call_ddb_method_unprepared _ d) in Hc; [|done];
      by destruct Hc
  end.

Lemma query_prepared q st r st' :
  CRUD.query q st = (Ret r, st') → prepared (_debug (self st)) r.
Proof. unfold CRUD.query. intros Hrun. enter Hrun. run_inv; close. Qed.

Lemma list_prepared st r st' :
  CRUD.list st = (Ret r, st') → prepared (_debug (self st)) r.
Proof. unfold CRUD.list. intros Hrun. enter Hrun. run_inv; close. Qed.

Lemma get_prepared id decrypt st r st' :
  CRUD.get id decrypt st = (Ret r, st') → prepared (_debug (self st)) r.
Proof. unfold CRUD.get. intros Hrun. enter Hrun. run_inv; close. Qed.

Lemma create_prepared payload st r st' :
  CRUD.create payload st = (Ret r, st') → prepared (_debug (self st)) r.
Proof. unfold CRUD.create. intros Hrun. enter Hrun. run_inv; close. Qed.

Lemma update_prepared payload st r st' :
  CRUD.update payload st = (Ret r, st') → prepared (_debug (self st)) r.
Proof. unfold CRUD.update. intros Hrun. enter Hrun. run_inv; close. Qed.

Lemma delete_prepared id st r st' :
  CRUD.delete id st = (Ret r, st') → prepared (_debug (self st)) r.
Proof. unfold CRUD.delete. intros Hrun. enter Hrun. run_inv; close. Qed.

Lemma handler_prepared payload operation st r st' :
  CRUD.handler payload operation st = (Ret r, st') →
  prepared (_debug (self st)) r.
Proof.
  unfold CRUD.handler. intros Hrun.
  apply bind_Ret in Hrun as (? & ? & [= <- <-] & Hrun).
  apply bind_Ret in Hrun as ([] & ? & [-> Hchk]%check_supported_op_cases & Hrun).
  destruct Hchk as [[? [= -> ->]]|[? [= -> ->]]]; cbn in Hrun.
  - run_inv;
      eauto using list_prepared, get_prepared, create_prepared,
        update_prepared, delete_prepared, query_prepared.
    intros _. split; [done|]. by case_match.
  - run_inv. done.
Qed.

(** X23. a success envelope carries the debug flag of the handler; with
    the flag off it carries no raw response, and with the flag on it
    carries no metadata. *)
Theorem success_envelope_is_prepared (c : call) st r st' :
  invoke c st = (Ret r, st') → status r = "success" →
  resp_debug r = _debug (self st) ∧
  if _debug (self st) then metadata r = None else raw_response r = None.
Proof.
  intros Hrun. change (prepared (_debug (self st)) r).
  destruct c; unfold invoke in Hrun;
    eauto using list_prepared, get_prepared, create_prepared,
      update_prepared, delete_prepared, query_prepared, handler_prepared.
Qed.

(** X24. when get is allowed and the store answers the GetItem request
    for a string id without an item, get returns the NotFound error
    envelope with the id in its message; the envelope keeps the raw
    response of the store and has no metadata, whatever the debug flag. *)
Theorem not_found_keeps_raw_response k decrypt st md st' :
  "get" ∈ supported_ops (self st) →
  ddb_request (GetItem (VStr k) true) st = (inr (Raw (BodyItem None) md), st') →
  ∃ r, CRUD.get (VStr k) decrypt st = (Ret r, st') ∧
    is_error "NotFound" r ∧
    error_message r = Some ("Item with id (" ++ k ++ ") not found") ∧
    raw_response r = Some (Raw (BodyItem None) md) ∧
    metadata r = None.
Proof.
  intros Hop Hrq.
  eexists. unfold CRUD.get.
  erewrite bind_run by apply new_response_run.
  erewrite bind_run by (by apply check_supported_op_true). cbn beta iota.
  erewrite bind_run
    by (erewrite bind_run by (unfold CRUD._call_ddb_method; by rewrite Hrq);
        reflexivity).
  unfold ret. split; [reflexivity|]. done.
Qed.

End shape.

(** ** Further examples *)

Section more_examples.
#[local] Existing Instance reference_platform.

Lemma query_validation_witness :
  let st := populated_state default_handler in
  let s := "foo=bar" in
  let o := fst (CRUD.query (VStr s) st) in
  let st' := state_after (CRUD.query (VStr s)) st in
  ((contains_char "=" s = false ∨ _indexes (self st) !! query_attribute s = None)
   ↔ (requests st' = requests st ∧ ∃ r, o = Ret r ∧ is_error "InvalidQuery" r)) ∧
  (∀ index_name,
     contains_char "=" s = true →
     _indexes (self st) !! query_attribute s = Some index_name →
     let rq := Query (query_attribute s) (query_value s) index_name in
     requests st' = (requests st ++ [rq])%list ∧
     (∀ f st1, ddb_request rq st = (inl f, st1) →
        ∃ r, o = Ret r ∧ fault_reported f r) ∧
     (∀ items md st1,
        ddb_request rq st = (inr (Raw (BodyItems items) md), st1) →
        if within_precision (VList (VDict <$> items)) then
          ∃ r, o = Ret r ∧ status r = "success" ∧
               data r = native (VList (VDict <$> items))
        else o = Raise "InvalidOperation")).
Proof.
  intros st s o st'. apply (query_validation st s o st').
  - in_list.
  - vm_compute. lia.
  - vm_compute. reflexivity.
Defined.

Lemma reads_change_nothing_witness :
  let st := populated_state default_handler in
  let st' := state_after CRUD.list st in
  table st' = table st ∧ uuids st' = uuids st ∧ ticks st' = ticks st.
Proof.
  intros st st'.
  apply (reads_change_nothing CallList st (fst (CRUD.list st)) st').
  - reflexivity.
  - vm_compute. reflexivity.
Defined.

Lemma no_kms_call_without_decrypt_witness :
  let st := populated_state encrypting_handler in
  kms_calls (state_after (CRUD.get (VStr "uuid-0") false) st) = kms_calls st.
Proof.
  intros st.
  apply (no_kms_call_without_decrypt (CallGet (VStr "uuid-0") false) st
           (fst (CRUD.get (VStr "uuid-0") false st))).
  - reflexivity.
  - vm_compute. reflexivity.
Defined.

Lemma at_most_one_store_request_witness :
  let st := initial_state encrypting_handler in
  ∃ l, requests (state_after (CRUD.handler (VDict person) "Create") st)
       = (requests st ++ l)%list ∧ (length l ≤ 1)%nat.
Proof.
  intros st.
  apply (at_most_one_store_request (CallHandler (VDict person) "Create") st
           (fst (CRUD.handler (VDict person) "Create" st))).
  vm_compute. reflexivity.
Defined.

Lemma init_index_map_witness :
  _indexes default_handler !! "foo"
  = IndexName <$> last (indexes_on "foo" (declared_indexes example_table)).
Proof.
  apply (init_index_map (Kwargs None None None None) example_table default_handler).
  reflexivity.
Defined.

Lemma token_re_match_name_witness :
  Tokens.token_re_match (String "<" ("uuid" ++ String ">" " and more"))
  = Some "uuid".
Proof.
  apply (token_re_match_name "uuid" " and more").
  - discriminate.
  - reflexivity.
  - reflexivity.
Defined.

Lemma create_raises_on_non_string_default_witness :
  let st := initial_state counting_handler in
  ∃ st', CRUD.create (VDict person) st = (Raise "TypeError", st') ∧
         requests st' = requests st ∧ table st' = table st.
Proof.
  intros st.
  apply (create_raises_on_non_string_default st person "visits" (VInt 0)).
  - in_list.
  - reflexivity.
  - vm_compute. reflexivity.
  - discriminate.
Defined.

Lemma create_applies_defaults_witness :
  let st := initial_state encrypting_handler in
  ∃ d, data (response_of (CRUD.create (VDict person)) st) = VDict d ∧
    (∀ k v, person !! k = Some v → k ≠ "modified_at" →
            k ∉ encrypted_names (self st) → d !! k = Some v) ∧
    (∀ k s, person !! k = None → defaults (self st) !! k = Some (VStr s) →
            Tokens.token_re_match s = None → k ≠ "modified_at" →
            k ∉ encrypted_names (self st) → d !! k = Some (VStr s)).
Proof.
  intros st.
  apply (create_applies_defaults st person
           (response_of (CRUD.create (VDict person)) st)
           (state_after (CRUD.create (VDict person)) st)).
  - vm_compute. reflexivity.
  - reflexivity.
Defined.

Lemma update_applies_no_defaults_witness :
  let st := initial_state default_handler in
  let it : item := {[ "id" := VStr "a" ]} in
  ∃ d, data (response_of (CRUD.update (VDict it)) st) = VDict d ∧
    (∀ k, k ≠ "modified_at" → (d !! k = None ↔ it !! k = None)) ∧
    (∀ k v, it !! k = Some v → k ≠ "modified_at" →
            k ∉ encrypted_names (self st) → d !! k = Some v).
Proof.
  intros st it.
  apply (update_applies_no_defaults st it
           (response_of (CRUD.update (VDict it)) st)
           (state_after (CRUD.update (VDict it)) st)).
  - vm_compute. reflexivity.
  - reflexivity.
Defined.

Lemma store_fault_is_reported_witness :
  let st := failing_state default_handler in
  ∃ r st', CRUD.list st = (Ret r, st') ∧
    fault_reported
      (ClientError (Some "Rate exceeded")
         (Some "ProvisionedThroughputExceededException") None) r ∧
    requests st' = (requests st ++ [Scan])%list ∧ table st' = table st.
Proof.
  intros st.
  apply (store_fault_is_reported CallList "list" Scan
           (ClientError (Some "Rate exceeded")
              (Some "ProvisionedThroughputExceededException") None) st).
  - reflexivity.
  - in_list.
  - reflexivity.
Defined.

Lemma table_changes_only_on_success_witness :
  let st := failing_state default_handler in
  table (state_after (CRUD.create (VDict person)) st) = table st.
Proof.
  intros st.
  apply (table_changes_only_on_success (CallCreate (VDict person)) st
           (Ret (response_of (CRUD.create (VDict person)) st))).
  - vm_compute. reflexivity.
  - intros r Hr. vm_compute in Hr. by injection Hr as <-.
Defined.

Lemma write_stores_returned_data_witness :
  let st := initial_state default_handler in
  let st' := state_after (CRUD.create (VDict person)) st in
  ∃ d k, data (response_of (CRUD.create (VDict person)) st) = VDict d ∧
         d !! "id" = Some (VStr k) ∧
         table st' !! k = Some (as_stored <$> d) ∧
         ∀ k', k' ≠ k → table st' !! k' = table st !! k'.
Proof.
  intros st st'.
  apply (write_stores_returned_data (CallCreate (VDict person)) st
           (response_of (CRUD.create (VDict person)) st) st').
  - reflexivity.
  - vm_compute. reflexivity.
  - reflexivity.
Defined.

Lemma write_then_get_round_trip_witness :
  let st := initial_state default_handler in
  let r := response_of (CRUD.create (VDict person)) st in
  let st' := state_after (CRUD.create (VDict person)) st in
  ∃ d k r' st'', data r = VDict d ∧ d !! "id" = Some (VStr k) ∧
    CRUD.get (VStr k) false st' = (Ret r', st'') ∧
    status r' = "success" ∧ data r' = data r.
Proof.
  intros st r st'.
  apply (write_then_get_round_trip (CallCreate (VDict person)) st r st').
  - reflexivity.
  - vm_compute. reflexivity.
  - reflexivity.
  - vm_compute. reflexivity.
  - in_list.
  - reflexivity.
Defined.

Lemma delete_removes_item_witness :
  let st := populated_state default_handler in
  let st' := state_after (CRUD.delete (VStr "uuid-0")) st in
  ∃ r, CRUD.delete (VStr "uuid-0") st = (Ret r, st') ∧
       status r = "success" ∧ data r = VNone ∧
       requests st' = (requests st ++ [DeleteItem (VStr "uuid-0")])%list ∧
       table st' !! "uuid-0" = None ∧
       ∀ k', k' ≠ "uuid-0" → table st' !! k' = table st !! k'.
Proof.
  intros st st'.
  apply (delete_removes_item "uuid-0" st BodyEmpty (length (requests st)) st').
  - in_list.
  - vm_compute. reflexivity.
Defined.

Lemma list_returns_scan_witness :
  let st := populated_state default_handler in
  ∃ st', requests st' = (requests st ++ [Scan])%list ∧ table st' = table st ∧
    if within_precision (VList (scanned st)) then
      ∃ r, CRUD.list st = (Ret r, st') ∧ status r = "success" ∧
           data r = native (VList (scanned st))
    else CRUD.list st = (Raise "InvalidOperation", st').
Proof.
  intros st. apply (list_returns_scan st).
  - in_list.
  - reflexivity.
Defined.

Lemma query_returns_converted_items_witness :
  let st := populated_state default_handler in
  let st' := state_after (CRUD.query (VStr "foo=bar")) st in
  let items : list item := [] in
  requests st' = (requests st ++ [Query "foo" "bar" "foo-index"])%list ∧
  if within_precision (VList (VDict <$> items)) then
    ∃ r, CRUD.query (VStr ("foo" ++ "=" ++ "bar")) st = (Ret r, st') ∧
         status r = "success" ∧
         data r = native (VList (VDict <$> items))
  else CRUD.query (VStr ("foo" ++ "=" ++ "bar")) st
       = (Raise "InvalidOperation", st').
Proof.
  intros st st' items.
  apply (query_returns_converted_items "foo" "bar" "foo-index" st items
           (length (requests st)) st').
  - in_list.
  - reflexivity.
  - reflexivity.
  - vm_compute. reflexivity.
  - vm_compute. reflexivity.
Defined.

Lemma handler_routes_witness :
  let st := populated_state default_handler in
  let payload := VDict {[ "id" := VStr "uuid-0" ]} in
  CRUD.handler payload "GET" st = CRUD.get (VStr "uuid-0") false st.
Proof.
  intros st payload.
  apply (handler_routes payload "GET" (CallGet (VStr "uuid-0") false) st).
  - in_list.
  - reflexivity.
Defined.

Lemma handler_unknown_allowed_operation_witness :
  let st := initial_state pinging_handler in
  CRUD.handler VNone "Ping" st = (Ret (new_CRUDResponse (_debug (self st))), st).
Proof.
  intros st. apply (handler_unknown_allowed_operation VNone "Ping" st).
  - in_list.
  - in_list.
Defined.

Lemma handler_raises_without_id_witness :
  let st := initial_state default_handler in
  CRUD.handler (VDict person) "Delete" st = (Raise "KeyError", st).
Proof.
  intros st. apply (handler_raises_without_id person "Delete" st).
  - in_list.
  - right. reflexivity.
  - reflexivity.
Defined.

Lemma success_envelope_is_prepared_witness :
  let st := initial_state default_handler in
  let r := response_of (CRUD.create (VDict person)) st in
  resp_debug r = _debug (self st) ∧
  if _debug (self st) then metadata r = None else raw_response r = None.
Proof.
  intros st r.
  apply (success_envelope_is_prepared (CallCreate (VDict person)) st r
           (state_after (CRUD.create (VDict person)) st)).
  - vm_compute. reflexivity.
  - reflexivity.
Defined.

Lemma not_found_keeps_raw_response_witness :
  let st := populated_state default_handler in
  let st' := state_after (CRUD.get (VStr "nobody") true) st in
  ∃ r, CRUD.get (VStr "nobody") true st = (Ret r, st') ∧
    is_error "NotFound" r ∧
    error_message r = Some ("Item with id (" ++ "nobody" ++ ") not found") ∧
    raw_response r = Some (Raw (BodyItem None) (length (requests st))) ∧
    metadata r = None.
Proof.
  intros st st'.
  apply (not_found_keeps_raw_response "nobody" true st (length (requests st)) st').
  - in_list.
  - vm_compute. reflexivity.
Defined.

End more_examples.
